(** * PDF outline extractor: a shallow embedding of [extractor.py]

    The development embeds the pure core of the extractor (text
    normalisation, heading classification, font profiling, outline
    construction, title resolution, the table-of-contents adapter and the
    per-document driver) and proves the properties its specification states.

    Conventions of the model.
    - A Python [str] is a [list ascii]; only code points 0..127 are modelled,
      so [\s], [\w], [\d], [str.lower] and friends are their ASCII
      restrictions.
    - A span's font size is the integer [round(span["size"])] the code
      works with; pages and depths are [Z].
    - The comparisons the code makes in floating point between small
      integers ([r / n > 0.5], [f > b * 1.2], ...) are written as the exact
      integer comparisons they decide ([2 * r > n], [5 * f > 6 * b], ...).
    - The layout library is external: a call into it either yields data or
      raises, and the exception classes the code distinguishes are kept. *)

From Stdlib Require Import ZArith Ascii String Lia.
From stdpp Require Import base tactics option list sorting gmap strings.

(** ** Python strings *)

Module Py.

Abbreviation str := (list ascii).

(** String literals of the source. *)
Definition py (s : string) : str := list_ascii_of_string s.

Definition code (c : ascii) : nat := nat_of_ascii c.

Definition in_range (lo hi : nat) (c : ascii) : bool :=
  (lo <=? code c)%nat && (code c <=? hi)%nat.

(** [str.isspace] and the regex class [\s]: TAB..CR, FS..US and space. *)
Definition isspace (c : ascii) : bool := in_range 9 13 c || in_range 28 32 c.

Definition isdigit (c : ascii) : bool := in_range 48 57 c.
Definition isupper (c : ascii) : bool := in_range 65 90 c.
Definition islower (c : ascii) : bool := in_range 97 122 c.
Definition isalpha (c : ascii) : bool := isupper c || islower c.

(** The regex class [\w]: letters, digits and the underscore. *)
Definition isword (c : ascii) : bool :=
  isalpha c || isdigit c || (code c =? 95)%nat.

Definition lower_char (c : ascii) : ascii :=
  if isupper c then ascii_of_nat (code c + 32) else c.
Definition upper_char (c : ascii) : ascii :=
  if islower c then ascii_of_nat (code c - 32) else c.
Definition swapcase_char (c : ascii) : ascii :=
  if isupper c then lower_char c else upper_char c.

(** [str.lower()] *)
Definition lower (s : str) : str := map lower_char s.

(** [str.lstrip()], [str.rstrip()], [str.strip()] *)
Fixpoint lstrip (s : str) : str :=
  match s with
  | c :: s' => if isspace c then lstrip s' else s
  | [] => []
  end.
Definition rstrip (s : str) : str := rev (lstrip (rev s)).
Definition strip (s : str) : str := rstrip (lstrip s).

(** [str.split()] with no argument: the maximal runs of non-whitespace.
    [cur] is the word being read, reversed. *)
Definition flush (cur : str) : list str :=
  match cur with [] => [] | _ => [rev cur] end.
Fixpoint split_go (cur : str) (s : str) : list str :=
  match s with
  | [] => flush cur
  | c :: s' =>
      if isspace c then flush cur ++ split_go [] s'
      else split_go (c :: cur) s'
  end.
Definition split (s : str) : list str := split_go [] s.

(** [sep.join(parts)] *)
Fixpoint join (sep : str) (parts : list str) : str :=
  match parts with
  | [] => []
  | [p] => p
  | p :: ps => p ++ sep ++ join sep ps
  end.

(** [needle in s] *)
Fixpoint starts_with (p s : str) : bool :=
  match p, s with
  | [], _ => true
  | a :: p', b :: s' => bool_decide (a = b) && starts_with p' s'
  | _ :: _, [] => false
  end.
Fixpoint contains (needle s : str) : bool :=
  starts_with needle s ||
  match s with [] => false | _ :: s' => contains needle s' end.

(** [str.istitle()]: uppercase letters only after uncased characters,
    lowercase letters only after cased ones, and at least one letter. *)
Fixpoint istitle_go (prev_cased cased : bool) (s : str) : bool :=
  match s with
  | [] => cased
  | c :: s' =>
      if isupper c then
        if prev_cased then false else istitle_go true true s'
      else if islower c then
        if prev_cased then istitle_go true true s' else false
      else istitle_go false cased s'
  end.
Definition istitle (s : str) : bool := istitle_go false false s.

(** [s[0].isupper()] on a string the caller knows to be non-empty. *)
Definition first_isupper (s : str) : bool :=
  match s with c :: _ => isupper c | [] => false end.

(** [re.sub(r'\s+', ' ', s)]: every maximal run of whitespace becomes one
    space. [in_ws] tells that the previous character was whitespace. *)
Fixpoint collapse_go (in_ws : bool) (s : str) : str :=
  match s with
  | [] => []
  | c :: s' =>
      if isspace c then
        if in_ws then collapse_go true s' else " "%char :: collapse_go true s'
      else c :: collapse_go false s'
  end.
Definition collapse_ws (s : str) : str := collapse_go false s.

(** [re.sub(r'\s+', ' ', s).strip()] *)
Definition normalize_ws (s : str) : str := strip (collapse_ws s).

(** [round(total / n)] for integers, [n > 0]: Python rounds a half to the
    even neighbour. *)
Definition round_div (total n : Z) : Z :=
  let q := (total / n)%Z in
  let r := (total mod n)%Z in
  if (2 * r <? n)%Z then q
  else if (n <? 2 * r)%Z then (q + 1)%Z
  else if Z.even q then q else (q + 1)%Z.

(** [collections.Counter] as the insertion-ordered dictionary it is. *)
Section Counter.
Context {K : Type} `{EqDecision K}.

Fixpoint counter_incr (k : K) (c : list (K * nat)) : list (K * nat) :=
  match c with
  | [] => [(k, 1%nat)]
  | (k', n) :: c' =>
      if decide (k = k') then (k', S n) :: c'
      else (k', n) :: counter_incr k c'
  end.

(** Number of occurrences of [k] in [l]. *)
Definition occurrences (k : K) (l : list K) : nat :=
  length (filter (fun y => y = k) l).

(** [Counter(items)]: items counted in order of first appearance. *)
Definition counter (items : list K) : list (K * nat) :=
  fold_left (fun c k => counter_incr k c) items [].

(** [Counter.most_common(1)]: [max] over the items by count, which keeps
    the first of the maximal ones. *)
Fixpoint max_by_count (best : K * nat) (c : list (K * nat)) : K * nat :=
  match c with
  | [] => best
  | kv :: c' =>
      if (snd best <? snd kv)%nat then max_by_count kv c'
      else max_by_count best c'
  end.
Definition most_common1 (c : list (K * nat)) : option (K * nat) :=
  match c with
  | [] => None
  | kv :: c' => Some (max_by_count kv c')
  end.
End Counter.

End Py.
Import Py.

(** ** Regular expressions

    The patterns of the source are transcribed into a small syntax and run
    by a derivative matcher. [re.match] anchors at position 0, so the
    leading [^] of a pattern is implied by [re_match] and not transcribed.
    [$] is [Eos]: it holds at the end of the subject and just before a final
    newline. *)

Module Re.

(** The items of a character class [[...]]. *)
Inductive citem :=
| CChar (c : ascii)
| CRange (lo hi : ascii)
| CDigit
| CWord
| CSpace.

Definition citem_mem (i : citem) (c : ascii) : bool :=
  match i with
  | CChar x => bool_decide (x = c)
  | CRange lo hi => in_range (code lo) (code hi) c
  | CDigit => isdigit c
  | CWord => isword c
  | CSpace => isspace c
  end.

(** Membership in a class; under [re.IGNORECASE] ([ic]) a character also
    belongs when its other case does. *)
Definition class_mem (ic : bool) (items : list citem) (c : ascii) : bool :=
  existsb (fun i => citem_mem i c) items
  || (ic && existsb (fun i => citem_mem i (swapcase_char c)) items).

Definition set_matches (ic neg : bool) (items : list citem) (c : ascii) : bool :=
  xorb neg (class_mem ic items c).

Inductive regex :=
| Void
| Eps
| Eos
| Set_ (neg : bool) (items : list citem)
| Cat (a b : regex)
| Alt (a b : regex)
| Star (a : regex).

(** Derived forms. *)
Definition Chr (c : ascii) : regex := Set_ false [CChar c].
Definition Lit (s : string) : regex := foldr (fun c r => Cat (Chr c) r) Eps (py s).
Definition Plus (a : regex) : regex := Cat a (Star a).
Definition Opt (a : regex) : regex := Alt a Eps.
Fixpoint Rep (n : nat) (a : regex) : regex :=
  match n with O => Eps | S n' => Cat a (Rep n' a) end.
Definition RepMin (n : nat) (a : regex) : regex := Cat (Rep n a) (Star a).
Fixpoint RepOpt (n : nat) (a : regex) : regex :=
  match n with O => Eps | S n' => Opt (Cat a (RepOpt n' a)) end.
Definition RepRange (lo hi : nat) (a : regex) : regex :=
  Cat (Rep lo a) (RepOpt (hi - lo) a).
Definition Alts (rs : list regex) : regex := foldr Alt Void rs.
Definition Seq (rs : list regex) : regex := foldr Cat Eps rs.

Definition Digit : regex := Set_ false [CDigit].
Definition Space : regex := Set_ false [CSpace].

(** [$] holds with nothing left, or with only a newline left. *)
Definition at_end (rest : str) : bool :=
  match rest with
  | [] => true
  | [c] => bool_decide (c = "010"%char)
  | _ => false
  end.

Fixpoint nullable (eos : bool) (r : regex) : bool :=
  match r with
  | Void => false
  | Eps => true
  | Eos => eos
  | Set_ _ _ => false
  | Cat a b => nullable eos a && nullable eos b
  | Alt a b => nullable eos a || nullable eos b
  | Star _ => true
  end.

Definition cat' (a b : regex) : regex :=
  match a with
  | Void => Void
  | Eps => b
  | _ => Cat a b
  end.
Definition alt' (a b : regex) : regex :=
  match a, b with
  | Void, _ => b
  | _, Void => a
  | _, _ => Alt a b
  end.

(** Derivative by [c], the next character of the subject; [eos] tells
    whether [$] holds in front of [c]. *)
Fixpoint deriv (ic eos : bool) (c : ascii) (r : regex) : regex :=
  match r with
  | Void | Eps | Eos => Void
  | Set_ neg items => if set_matches ic neg items c then Eps else Void
  | Cat a b =>
      alt' (cat' (deriv ic eos c a) b)
           (if nullable eos a then deriv ic eos c b else Void)
  | Alt a b => alt' (deriv ic eos c a) (deriv ic eos c b)
  | Star a => cat' (deriv ic eos c a) (Star a)
  end.

(** [re.match(r, s)] as a truth value: some prefix of [s] matches. *)
Fixpoint re_match (ic : bool) (r : regex) (s : str) : bool :=
  nullable (at_end s) r ||
  match s with
  | [] => false
  | c :: s' => re_match ic (deriv ic (at_end s) c r) s'
  end.

(** [re.search(r, s)] as a truth value: a match starting anywhere. *)
Fixpoint re_search (ic : bool) (r : regex) (s : str) : bool :=
  re_match ic r s ||
  match s with
  | [] => false
  | _ :: s' => re_search ic r s'
  end.

(** [len(re.findall(cls, s))] for a pattern that is one character class. *)
Definition count_class (neg : bool) (items : list citem) (s : str) : nat :=
  length (filter (fun c => set_matches false neg items c = true) s).

(** Denotation: [matches ic r s rest] says that [r] matches exactly [s]
    when [rest] is what follows [s] in the subject. *)
Inductive matches (ic : bool) : regex -> str -> str -> Prop :=
| M_eps rest : matches ic Eps [] rest
| M_eos rest : at_end rest = true -> matches ic Eos [] rest
| M_set neg items c rest :
    set_matches ic neg items c = true -> matches ic (Set_ neg items) [c] rest
| M_cat a b s1 s2 rest :
    matches ic a s1 (s2 ++ rest) -> matches ic b s2 rest ->
    matches ic (Cat a b) (s1 ++ s2) rest
| M_alt_l a b s rest : matches ic a s rest -> matches ic (Alt a b) s rest
| M_alt_r a b s rest : matches ic b s rest -> matches ic (Alt a b) s rest
| M_star_nil a rest : matches ic (Star a) [] rest
| M_star_cons a s1 s2 rest :
    matches ic a s1 (s2 ++ rest) -> matches ic (Star a) s2 rest ->
    matches ic (Star a) (s1 ++ s2) rest.

End Re.
Import Re.

(** ** The extractor *)

(** *** The document-layout interface (PyMuPDF)

    [page.get_text("dict")["blocks"]] yields blocks of lines of spans, or
    raises. [doc.metadata.get('title')], [doc.get_toc()] and
    [doc.page_count] are data of the opened document. *)

Record span := Span {
  span_text : str;
  span_size : Z;
  span_font : str }.

Record line := Line { line_spans : list span }.

Record block := Block { block_lines : list line }.

Inductive exn_class := IndexError | ValueError | OtherException.

(** An exception: its class and [str(e)]. *)
Record exn := Exn { exn_kind : exn_class; exn_str : str }.

Record page := Page { get_text_blocks : exn + list block }.

(** A table-of-contents row [(level, text, page)]. *)
Record toc_row := TocRow { toc_level : Z; toc_text : str; toc_page : Z }.

Record document := Document {
  metadata_title : option str;
  pages : list page;
  get_toc : list toc_row }.

Definition page_count (doc : document) : nat := length (pages doc).

(** *** Output records *)

Inductive level := H1 | H2 | H3.

(** The level token as it is written to the output. *)
Definition level_str (l : level) : str :=
  match l with H1 => py "H1" | H2 => py "H2" | H3 => py "H3" end.

Record outline_entry := Entry {
  entry_level : level;
  entry_text : str;
  entry_page : Z }.

Record output := Output { title : str; outline : list outline_entry }.

Inductive status := Success | Error.

Record result := Result {
  res_path : str;
  res_status : status;
  res_data : output }.

Definition is_nil {A} (l : list A) : bool :=
  match l with [] => true | _ => false end.

(** *** get_title *)

Definition untitled : str := py "Untitled Document".

(** The [candidates] dictionary: rounded size of a line's first span to the
    texts of the lines of that size, in extraction order. *)
Definition add_candidate (cands : gmap Z (list str)) (l : line) : gmap Z (list str) :=
  match line_spans l with
  | [] => cands
  | s0 :: _ =>
      let line_text := join (py " ") (map (fun s => strip (span_text s)) (line_spans l)) in
      let line_size := span_size s0 in
      <[line_size := default [] (cands !! line_size) ++ [line_text]]> cands
  end.

Definition title_candidates (blocks : list block) : gmap Z (list str) :=
  foldl add_candidate ∅ (concat (map block_lines blocks)).

(** [max(candidates.keys())], [None] for the empty dictionary. *)
Definition largest_size (cands : gmap Z (list str)) : option Z :=
  match map fst (map_to_list cands) with
  | [] => None
  | k :: ks => Some (foldl Z.max k ks)
  end.

(** The value of [title_text] the [try] body computes from the blocks of
    the first page. *)
Definition title_from_blocks (blocks : list block) : str :=
  let cands := title_candidates blocks in
  match largest_size cands with
  | None => untitled
  | Some size => normalize_ws (join (py " ") (default [] (cands !! size)))
  end.

(** The [try] body: [doc[0]] raises [IndexError] on a document without
    pages, and the layout call may raise. *)
Definition title_try (doc : document) : exn + str :=
  match pages doc with
  | [] => inl (Exn IndexError (py "page 0 not in document"))
  | p :: _ =>
      match get_text_blocks p with
      | inl e => inl e
      | inr blocks => inr (title_from_blocks blocks)
      end
  end.

(** [except (IndexError, ValueError): pass] *)
Definition title_caught (e : exn) : bool :=
  match exn_kind e with
  | IndexError | ValueError => true
  | OtherException => false
  end.

(** [title_text] once the [try] statement is left; an exception of another
    class leaves [get_title]. *)
Definition title_text_after_try (doc : document) : exn + str :=
  match title_try doc with
  | inr title_text => inr title_text
  | inl e => if title_caught e then inr untitled else inl e
  end.

Definition title_heuristic (doc : document) : exn + str :=
  match title_text_after_try doc with
  | inr title_text =>
      inr (if (4 <? length title_text)%nat then title_text else untitled)
  | inl e => inl e
  end.

Definition get_title (doc : document) : exn + str :=
  match metadata_title doc with
  | Some title =>
      if negb (is_nil title) && negb (is_nil (strip title))
      then inr (normalize_ws title)
      else title_heuristic doc
  | None => title_heuristic doc
  end.

(** *** extract_outline_from_toc *)

(** [f"H{level}"] for a level the guard [1 <= level <= 3] admits. *)
Definition toc_entry (r : toc_row) : option outline_entry :=
  let mk l := Some (Entry l (strip (toc_text r)) (toc_page r)) in
  if ((1 <=? toc_level r) && (toc_level r <=? 3))%Z then
    if (toc_level r =? 1)%Z then mk H1
    else if (toc_level r =? 2)%Z then mk H2
    else mk H3
  else None.

Definition extract_outline_from_toc (doc : document) : option (list outline_entry) :=
  match get_toc doc with
  | [] => None
  | toc =>
      match omap toc_entry toc with
      | [] => None
      | outline => Some outline
      end
  end.

(** *** clean_text *)

(** [sum(1 for count in word_counts.values() if count > 1)] *)
Definition repeated_words (word_counts : list (str * nat)) : nat :=
  length (filter (fun kv => (1 <? snd kv)%nat = true) word_counts).

(** The test of line 73, [repeated_words / len(words) > 0.5]. *)
Definition repetition_check (words : list str) : bool :=
  (length words <? 2 * repeated_words (counter words))%nat.

(** [re.search(r'(.)\1{6,}', text)]: a character other than newline
    followed by at least [n - 1] copies of itself. *)
Fixpoint run_length (c : ascii) (s : str) : nat :=
  match s with
  | c' :: s' => if bool_decide (c' = c) then S (run_length c s') else O
  | [] => O
  end.
Fixpoint has_char_run (n : nat) (s : str) : bool :=
  match s with
  | [] => false
  | c :: s' =>
      (negb (bool_decide (c = "010"%char)) && (n <=? S (run_length c s'))%nat)
      || has_char_run n s'
  end.

(** The negated class of line 82: word characters, whitespace, and the
    punctuation [- . , ; : ( )] and the double quote (code 34). *)
Definition special_items : list citem :=
  [CWord; CSpace; CChar "-"; CChar "."; CChar ","; CChar ";"; CChar ":";
   CChar "("; CChar ")"; CChar "034"]%char.

Definition clean_text (text : str) : str :=
  if is_nil text then []
  else
    let text := normalize_ws text in
    let words := split text in
    if (30 <? length text)%nat && (5 <? length words)%nat
       && repetition_check words
    then []
    else if has_char_run 7 text then []
    else if negb (is_nil text)
            && (3 * length text <? 5 * count_class true special_items text)%nat
    then []
    else text.

(** *** is_likely_heading *)

Definition Upper : regex := Set_ false [CRange "A" "Z"]%char.

Definition strict_non_heading_patterns : list regex :=
  [ (* ^\$[\d,]+(\.\d{2})?\s*$ *)
    Seq [Chr "$"; Plus (Set_ false [CDigit; CChar ","%char]);
         Opt (Cat (Chr ".") (Rep 2 Digit)); Star Space; Eos];
    (* ^Page\s+\d+\s*$ *)
    Seq [Lit "Page"; Plus Space; Plus Digit; Star Space; Eos];
    (* ^[^a-zA-Z]*$ *)
    Seq [Star (Set_ true [CRange "a" "z"; CRange "A" "Z"]%char); Eos];
    (* ^[^\w\s]*$ *)
    Seq [Star (Set_ true [CWord; CSpace]); Eos] ].

Definition strong_heading_patterns : list regex :=
  [ (* ^(Chapter|Section|...|References?|Bibliography)\s*[A-Z0-9]* *)
    Seq [Alts [Lit "Chapter"; Lit "Section"; Lit "Part"; Lit "Appendix";
               Lit "Summary"; Lit "Background"; Lit "Introduction";
               Lit "Conclusion"; Cat (Lit "Reference") (Opt (Chr "s"));
               Lit "Bibliography"];
         Star Space; Star (Set_ false [CRange "A" "Z"; CRange "0" "9"]%char)];
    (* ^\d+(\.\d+)*\s+[A-Za-z] *)
    Seq [Plus Digit; Star (Cat (Chr ".") (Plus Digit)); Plus Space;
         Set_ false [CRange "A" "Z"; CRange "a" "z"]%char];
    (* ^[A-Z]{2,}(\s+[A-Z]{2,})*\s*$ *)
    Seq [RepMin 2 Upper; Star (Cat (Plus Space) (RepMin 2 Upper));
         Star Space; Eos];
    (* ^(Abstract|Executive Summary|Table of Contents|Acknowledgments?) *)
    Alts [Lit "Abstract"; Lit "Executive Summary"; Lit "Table of Contents";
          Cat (Lit "Acknowledgment") (Opt (Chr "s"))] ].

Definition loose_non_heading_patterns : list regex :=
  [ (* ^\d+\.\d+\s*$ *)
    Seq [Plus Digit; Chr "."; Plus Digit; Star Space; Eos];
    (* ^[A-Z]\.\d+\s*$ *)
    Seq [Upper; Chr "."; Plus Digit; Star Space; Eos];
    (* ^\d{4}[\s-]\d{4}\s*$ *)
    Seq [Rep 4 Digit; Set_ false [CSpace; CChar "-"%char]; Rep 4 Digit;
         Star Space; Eos];
    (* ^\(\s*[^)]*\s*\)\s*$ *)
    Seq [Chr "("; Star Space; Star (Set_ true [CChar ")"%char]); Star Space;
         Chr ")"; Star Space; Eos];
    (* ^(January|...|December)\s+\d{1,2},?\s+\d{4}\s*$ *)
    Seq [Alts [Lit "January"; Lit "February"; Lit "March"; Lit "April";
               Lit "May"; Lit "June"; Lit "July"; Lit "August";
               Lit "September"; Lit "October"; Lit "November";
               Lit "December"];
         Plus Space; RepRange 1 2 Digit; Opt (Chr ","); Plus Space;
         Rep 4 Digit; Star Space; Eos] ].

(** [any(re.match(p, clean, re.IGNORECASE) for p in patterns)], which is
    what each of the three [for] loops over patterns decides. *)
Definition any_match (patterns : list regex) (clean : str) : bool :=
  existsb (fun p => re_match true p clean) patterns.

(** [[.]{2,}] of line 165. *)
Definition multiple_dots : regex := RepMin 2 (Set_ false [CChar "."%char]).

Definition is_likely_heading
    (text : str) (font_size : Z) (is_bold : bool) (body_size : Z)
    (heading_sizes : list Z) : bool :=
  if is_nil text || (length (strip text) <? 2)%nat then false
  else
    let clean := clean_text text in
    if is_nil clean then false
    else
      let word_count := length (split clean) in
      if (25 <? word_count)%nat then false
      else if (200 <? length clean)%nat then false
      else if any_match strict_non_heading_patterns clean then false
      else if any_match strong_heading_patterns clean then true
      else
        (* font_size > body_size * 1.2 and font_size > body_size * 1.05 *)
        let significant_font_advantage := (6 * body_size <? 5 * font_size)%Z in
        let moderate_font_advantage := (21 * body_size <? 20 * font_size)%Z in
        if significant_font_advantage then true
        else if is_bold && moderate_font_advantage then true
        else if is_bold && (body_size <=? font_size)%Z
                && (first_isupper clean || istitle clean)
        then negb (any_match loose_non_heading_patterns clean)
        else if moderate_font_advantage && first_isupper clean
                && (length (split clean) <=? 8)%nat
                && negb (re_search false multiple_dots clean)
        then true
        else false.

(** *** extract_outline_heuristically *)

Record text_block := TextBlock {
  tb_text : str;
  tb_font_size : Z;
  tb_is_bold : bool;
  tb_page : Z }.

(** The spans of a block whose stripped text is not empty, line by line. *)
Definition kept_spans (b : block) : list span :=
  filter (fun s => strip (span_text s) <> []) (concat (map line_spans (block_lines b))).

(** One block of pass 1; [page_num] is the index [enumerate] gives. *)
Definition text_block_of (page_num : nat) (b : block) : option text_block :=
  match block_lines b with
  | [] => None
  | _ =>
      let spans := kept_spans b in
      let block_text_parts := map (fun s => strip (span_text s)) spans in
      let font_sizes := map span_size spans in
      let fonts := map span_font spans in
      match block_text_parts with
      | [] => None
      | _ =>
          Some {|
            tb_text := join (py " ") block_text_parts;
            tb_font_size :=
              round_div (foldr Z.add 0%Z font_sizes) (Z.of_nat (length font_sizes));
            tb_is_bold := existsb (fun font => contains (py "bold") (lower font)) fonts;
            tb_page := (Z.of_nat page_num + 1)%Z |}
      end
  end.

(** A page whose layout call raises is skipped ([except Exception:
    continue]). *)
Definition page_text_blocks (page_num : nat) (p : page) : list text_block :=
  match get_text_blocks p with
  | inl _ => []
  | inr blocks => omap (text_block_of page_num) blocks
  end.

(** Pass 1: [all_text_blocks]. *)
Definition all_text_blocks (doc : document) : list text_block :=
  concat (imap page_text_blocks (pages doc)).

(** [font_counts]: one count per block, in the order the blocks are met. *)
Definition font_counts (blocks : list text_block) : list (Z * nat) :=
  counter (map tb_font_size blocks).

(** [font_counts.most_common(1)[0][0]] *)
Definition body_text_size (blocks : list text_block) : option Z :=
  fst <$> most_common1 (font_counts blocks).

(** [sorted(..., reverse=True)] *)
Definition desc (a b : Z) : Prop := (b <= a)%Z.
#[global] Instance desc_dec : RelDecision desc := fun a b => decide (b <= a)%Z.
Definition sorted_desc (l : list Z) : list Z := merge_sort desc l.

(** [heading_sizes] (line 227): the counted sizes above the body size. *)
Definition heading_sizes_of (blocks : list text_block) (body : Z) : list Z :=
  sorted_desc
    (filter (fun size => (body < size)%Z) (map fst (font_counts blocks))).

(** [size_to_level] (lines 230-243): by the length of [heading_sizes],
    three or more, two, one, none. *)
Definition size_to_level_of (heading_sizes : list Z) : gmap Z level :=
  match heading_sizes with
  | s0 :: s1 :: (_ :: _) as rest =>
      foldl (fun m size => <[size := H3]> m) (<[s1 := H2]> (<[s0 := H1]> ∅)) rest
  | [s0; s1] => <[s1 := H2]> (<[s0 := H1]> ∅)
  | [s0] => <[s0 := H1]> ∅
  | [] => ∅
  end.

(** The level of a block that was classified as a heading (lines 265-271):
    [None] is [continue]. *)
Definition resolve_level
    (size_to_level : gmap Z level) (body : Z) (font_size : Z) (is_bold : bool)
    : option level :=
  match size_to_level !! font_size with
  | Some l => Some l
  | None =>
      if is_bold && (body <=? font_size)%Z then Some H3 else None
  end.

(** The entry pass 2 builds for a block, before the duplicate check. *)
Definition heading_entry
    (body : Z) (heading_sizes : list Z) (size_to_level : gmap Z level)
    (b : text_block) : option outline_entry :=
  let clean := clean_text (tb_text b) in
  if is_nil clean then None
  else if negb (is_likely_heading clean (tb_font_size b) (tb_is_bold b) body heading_sizes)
  then None
  else
    match resolve_level size_to_level body (tb_font_size b) (tb_is_bold b) with
    | Some l => Some (Entry l clean (tb_page b))
    | None => None
    end.

Definition heading_key (e : outline_entry) : Z * str :=
  (entry_page e, lower (entry_text e)).

(** The state of pass 2: [outline] and [processed_headings]. *)
Definition pass2_state : Type := list outline_entry * gset (Z * str).

Definition add_heading (st : pass2_state) (e : outline_entry) : pass2_state :=
  if decide (heading_key e ∈ st.2) then st
  else (st.1 ++ [e], st.2 ∪ {[ heading_key e ]}).

Definition pass2_step
    (body : Z) (heading_sizes : list Z) (size_to_level : gmap Z level)
    (st : pass2_state) (b : text_block) : pass2_state :=
  match heading_entry body heading_sizes size_to_level b with
  | Some e => add_heading st e
  | None => st
  end.

Definition outline_of_blocks (blocks : list text_block) : list outline_entry :=
  match body_text_size blocks with
  | None => []
  | Some body =>
      let heading_sizes := heading_sizes_of blocks body in
      let size_to_level := size_to_level_of heading_sizes in
      (foldl (pass2_step body heading_sizes size_to_level) ([], ∅) blocks).1
  end.

Definition extract_outline_heuristically (doc : document) : list outline_entry :=
  outline_of_blocks (all_text_blocks doc).

(** *** process_single_pdf and the batch *)

(** A file of the input directory: its path and what [fitz.open] gives. *)
Record pdf_file := PdfFile { pdf_path : str; fitz_open : exn + document }.

(** [os.path.basename]: what follows the last slash. *)
Fixpoint basename_go (acc : str) (s : str) : str :=
  match s with
  | [] => acc
  | c :: s' => if bool_decide (c = "/"%char) then basename_go s' s' else basename_go acc s'
  end.
Definition basename (path : str) : str := basename_go path path.

Definition error_result (path : str) (message : str) : result :=
  Result path Error (Output (basename path) [Entry H1 message 1%Z]).

(** [process_single_pdf] with the heuristic extractor it calls as a
    parameter, so that a statement can say the extractor is not called. *)
Definition process_single_pdf_with
    (heuristic : document -> exn + list outline_entry) (f : pdf_file) : result :=
  let failed e := error_result (pdf_path f) (py "Error processing file: " ++ exn_str e) in
  match fitz_open f with
  | inl e => failed e
  | inr doc =>
      if (50 <? page_count doc)%nat then
        error_result (pdf_path f) (py "Error: PDF exceeds 50 page limit")
      else
        match get_title doc with
        | inl e => failed e
        | inr title =>
            match extract_outline_from_toc doc with
            | Some outline => Result (pdf_path f) Success (Output title outline)
            | None =>
                match heuristic doc with
                | inl e => failed e
                | inr outline => Result (pdf_path f) Success (Output title outline)
                end
            end
        end
  end.

Definition process_single_pdf (f : pdf_file) : result :=
  process_single_pdf_with (fun doc => inr (extract_outline_heuristically doc)) f.

(** [pool.map(process_single_pdf, pdf_files)] *)
Definition process_all (pdf_files : list pdf_file) : list result :=
  map process_single_pdf pdf_files.

(** ** Vocabulary of the specification *)

(** Lexicographic order on strings, as the specification compares level
    tokens. *)
Fixpoint lex_leb (a b : str) : bool :=
  match a, b with
  | [], _ => true
  | _ :: _, [] => false
  | x :: a', y :: b' =>
      if (code x <? code y)%nat then true
      else if (code y <? code x)%nat then false
      else lex_leb a' b'
  end.

Definition level_le (l1 l2 : level) : Prop :=
  lex_leb (level_str l1) (level_str l2) = true.

(** The rule of the specification for repeated words: more than half of
    the distinct words occur more than once. *)
Definition spec_repetition_reject (words : list str) : bool :=
  let word_counts := counter words in
  (length word_counts <? 2 * repeated_words word_counts)%nat.

(** Depth to level token, as the specification words it. *)
Definition spec_level_of_depth (depth : Z) : level :=
  if (depth =? 1)%Z then H1 else if (depth =? 2)%Z then H2 else H3.

(** The native entries of depth 1 to 3 in their order; the code strips
    the text of each. *)
Definition native_entries (doc : document) : list outline_entry :=
  map (fun r => Entry (spec_level_of_depth (toc_level r)) (strip (toc_text r)) (toc_page r))
      (filter (fun r => (1 <= toc_level r <= 3)%Z) (get_toc doc)).

(** A metadata title that is missing, empty or made of whitespace. *)
Definition blank_metadata (doc : document) : Prop :=
  match metadata_title doc with
  | None => True
  | Some title => strip title = []
  end.

(** The synthetic record for a document over the page limit. *)
Definition page_limit_result (path : str) : result :=
  Result path Error
    (Output (basename path) [Entry H1 (py "Error: PDF exceeds 50 page limit") 1%Z]).

(** The entries pass 2 builds for the blocks, in block order, before the
    duplicate check. *)
Definition heading_candidates (blocks : list text_block) : list outline_entry :=
  match body_text_size blocks with
  | None => []
  | Some body =>
      let heading_sizes := heading_sizes_of blocks body in
      omap (heading_entry body heading_sizes (size_to_level_of heading_sizes)) blocks
  end.

(** [e] is the first of the candidates with its page and lowercased text. *)
Definition first_of_key (e : outline_entry) (candidates : list outline_entry) : Prop :=
  exists c1 c2,
    candidates = c1 ++ e :: c2
    /\ forall e', e' ∈ c1 -> heading_key e' <> heading_key e.

(** A word of letters only, at least two of them. *)
Definition alpha_word (w : str) : Prop :=
  (2 <= length w)%nat /\ Forall (fun c => isalpha c = true) w.

(** ** Sample documents *)

Definition text_span (text : string) (size : Z) (font : string) : span :=
  Span (py text) size (py font).

Definition one_span_block (text : string) (size : Z) (font : string) : block :=
  Block [Line [text_span text size font]].

Definition empty_page : page := Page (inr []).

(** Sixty pages and a one-row table of contents. *)
Definition long_doc : document :=
  Document None (replicate 60 empty_page) [TocRow 1 (py "Intro") 1].
Definition long_file : pdf_file := PdfFile (py "./input/long.pdf") (inr long_doc).

(** A table of contents that lists the same row twice. *)
Definition dup_toc_doc : document :=
  Document (Some (py "Report")) [empty_page]
    [TocRow 1 (py "Intro") 1; TocRow 1 (py "Intro") 1].
Definition dup_toc_file : pdf_file := PdfFile (py "./input/dup.pdf") (inr dup_toc_doc).

(** The table of contents of the scenario of the specification. *)
Definition toc_doc : document :=
  Document (Some (py "Report")) [empty_page]
    [TocRow 1 (py "Intro") 1; TocRow 2 (py "Details") 2; TocRow 4 (py "Deep") 5].
Definition toc_file : pdf_file := PdfFile (py "./input/toc.pdf") (inr toc_doc).

(** A first page whose layout call raises an exception that is neither
    [IndexError] nor [ValueError]. *)
Definition broken_page : page :=
  Page (inl (Exn OtherException (py "cannot load page"))).
Definition broken_doc : document := Document None [broken_page] [].

(** No metadata title; two lines of size 24 and three blocks of body text
    of size 10. *)
Definition report_doc : document :=
  Document None
    [Page (inr [one_span_block "Annual" 24 "Helvetica";
                one_span_block "Report" 24 "Helvetica";
                one_span_block "plain body text of the first page" 10 "Helvetica";
                one_span_block "more body text of the first page" 10 "Helvetica";
                one_span_block "closing body text of the first page" 10 "Helvetica"])]
    [].
Definition report_file : pdf_file := PdfFile (py "./input/report.pdf") (inr report_doc).

(** No table of contents, body size 10, and on page 3 a bold block
    "1.1 Overview" of size 10. *)
Definition overview_doc : document :=
  Document None
    [Page (inr [one_span_block "first page body text" 10 "Times"]);
     Page (inr [one_span_block "second page body text" 10 "Times"]);
     Page (inr [one_span_block "1.1 Overview" 10 "Times-Bold";
                one_span_block "third page body text" 10 "Times"])]
    [].

Definition overview_block : text_block :=
  TextBlock (py "1.1 Overview") 10 true 3.

(** The characters of a string that are not whitespace. *)
Definition nonspace (s : str) : str := filter (fun c => isspace c = false) s.

(** ** Further vocabulary *)

(** A string in which every whitespace character is a single space that
    does not follow another one; [prev_ws] tells that the previous
    character was whitespace. *)
Fixpoint collapsed_go (prev_ws : bool) (s : str) : bool :=
  match s with
  | [] => true
  | c :: s' =>
      if isspace c
      then bool_decide (c = " "%char) && negb prev_ws && collapsed_go true s'
      else collapsed_go false s'
  end.

(** The text contains [n] equal consecutive characters. *)
Definition has_equal_run (n : nat) (s : str) : Prop :=
  exists c before after, s = before ++ replicate n c ++ after.


(** A document in which the page at one position is replaced. *)
Definition with_page (doc : document) (before after : list page) (p : page) : document :=
  Document (metadata_title doc) (before ++ p :: after) (get_toc doc).

(** The lines of the blocks that have spans, each with the rounded size of
    its first span and its text: what [get_title] files under
    [candidates]. *)
Definition sized_line (l : line) : option (Z * str) :=
  match line_spans l with
  | [] => None
  | s0 :: _ =>
      Some (span_size s0,
            join (py " ") (map (fun s => strip (span_text s)) (line_spans l)))
  end.

Definition sized_lines (blocks : list block) : list (Z * str) :=
  omap sized_line (concat (map block_lines blocks)).

(** The texts of the lines of a given size, in extraction order. *)
Definition lines_of_size (size : Z) (lines : list (Z * str)) : list str :=
  map snd (filter (fun kv => fst kv = size) lines).

(** *** main: the name of the output file *)

(** [name.rfind('.')] as the pair of what precedes and what follows the last
    dot, [None] when there is no dot. *)
Fixpoint rsplit_dot (s : str) : option (str * str) :=
  match s with
  | [] => None
  | c :: s' =>
      match rsplit_dot s' with
      | Some (pre, post) => Some (c :: pre, post)
      | None => if bool_decide (c = "."%char) then Some ([], s') else None
      end
  end.

(** [PurePath.stem]: the final component without its suffix; a leading dot
    and a trailing dot do not start a suffix ([0 < i < len(name) - 1]). *)
Definition stem (path : str) : str :=
  let name := basename path in
  match rsplit_dot name with
  | Some (pre, post) =>
      if negb (is_nil pre) && negb (is_nil post) then pre else name
  | None => name
  end.

(** [f"{Path(pdf_path).stem}.json"] of line 325. *)
Definition output_filename (path : str) : str := stem path ++ py ".json".

(** * Facts about the string operations *)

Section StringFacts.
Implicit Types (s t : str) (c : ascii).

Lemma nonspace_cons_space c s : isspace c = true -> nonspace (c :: s) = nonspace s.
Proof.
  intros Hc. unfold nonspace. rewrite filter_cons_False; [done|]. congruence.
Qed.

Lemma nonspace_cons_other c s :
  isspace c = false -> nonspace (c :: s) = c :: nonspace s.
Proof. intros Hc. unfold nonspace. by rewrite filter_cons_True. Qed.

Lemma nonspace_app s t : nonspace (s ++ t) = nonspace s ++ nonspace t.
Proof. apply filter_app. Qed.

Lemma nonspace_rev s : nonspace (rev s) = rev (nonspace s).
Proof.
  induction s as [|c s IH]; [done|]. simpl.
  rewrite nonspace_app, IH. destruct (isspace c) eqn:Hc.
  - rewrite !nonspace_cons_space by done. simpl. by rewrite app_nil_r.
  - rewrite !nonspace_cons_other by done. done.
Qed.

Lemma nonspace_lstrip s : nonspace (lstrip s) = nonspace s.
Proof.
  induction s as [|c s IH]; [done|]. simpl.
  destruct (isspace c) eqn:Hc; [|done].
  by rewrite IH, nonspace_cons_space.
Qed.

Lemma nonspace_rstrip s : nonspace (rstrip s) = nonspace s.
Proof.
  unfold rstrip. rewrite nonspace_rev, nonspace_lstrip, nonspace_rev.
  apply rev_involutive.
Qed.

Lemma nonspace_strip s : nonspace (strip s) = nonspace s.
Proof. unfold strip. by rewrite nonspace_rstrip, nonspace_lstrip. Qed.

Lemma nonspace_collapse_go b s : nonspace (collapse_go b s) = nonspace s.
Proof.
  revert b. induction s as [|c s IH]; intros b; [done|]. simpl.
  destruct (isspace c) eqn:Hc.
  - rewrite (nonspace_cons_space c) by done.
    destruct b; [apply IH|]. rewrite nonspace_cons_space by done. apply IH.
  - rewrite !nonspace_cons_other by done. by rewrite IH.
Qed.

Lemma nonspace_normalize_ws s : nonspace (normalize_ws s) = nonspace s.
Proof. unfold normalize_ws, collapse_ws. by rewrite nonspace_strip, nonspace_collapse_go. Qed.

Lemma nonspace_length s : (length (nonspace s) <= length s)%nat.
Proof. apply length_filter. Qed.

Lemma lstrip_length s : (length (lstrip s) <= length s)%nat.
Proof.
  induction s as [|c s IH]; simpl; [lia|]. destruct (isspace c); simpl; lia.
Qed.

Lemma strip_length s : (length (strip s) <= length s)%nat.
Proof.
  unfold strip, rstrip. rewrite length_rev.
  etrans; [apply lstrip_length|]. rewrite length_rev. apply lstrip_length.
Qed.

Lemma lstrip_head s : lstrip s = [] \/ exists c r, lstrip s = c :: r /\ isspace c = false.
Proof.
  induction s as [|c s IH]; [by left|]. simpl.
  destruct (isspace c) eqn:Hc; [done|]. right. eauto.
Qed.

Lemma strip_nonspace_nonnil s : strip s <> [] -> nonspace s <> [].
Proof.
  intros Hs. rewrite <- nonspace_lstrip.
  destruct (lstrip_head s) as [Hnil|(c & r & Hl & Hc)].
  - exfalso. apply Hs. unfold strip. by rewrite Hnil.
  - rewrite Hl, nonspace_cons_other by done. done.
Qed.

Lemma nonnil_of_nonspace s : nonspace s <> [] -> s <> [].
Proof. by intros H ->. Qed.

Lemma normalize_ws_nonnil s : strip s <> [] -> normalize_ws s <> [].
Proof.
  intros Hs. apply nonnil_of_nonspace. rewrite nonspace_normalize_ws.
  by apply strip_nonspace_nonnil.
Qed.

Lemma is_nil_true {A} (l : list A) : is_nil l = true <-> l = [].
Proof. by destruct l. Qed.

Lemma is_nil_false {A} (l : list A) : is_nil l = false <-> l <> [].
Proof. by destruct l. Qed.

End StringFacts.

(** * The per-document driver *)

Section Driver.

Lemma toc_entry_spec r :
  toc_entry r =
  if decide (1 <= toc_level r <= 3)%Z
  then Some (Entry (spec_level_of_depth (toc_level r)) (strip (toc_text r)) (toc_page r))
  else None.
Proof.
  unfold toc_entry, spec_level_of_depth.
  destruct (decide _) as [Hr|Hr].
  - replace ((1 <=? toc_level r)%Z && (toc_level r <=? 3)%Z) with true
      by (symmetry; apply andb_true_iff; split; apply Z.leb_le; lia).
    by repeat case_match.
  - replace ((1 <=? toc_level r)%Z && (toc_level r <=? 3)%Z) with false; [done|].
    symmetry. apply andb_false_iff.
    destruct (Z.leb_spec 1 (toc_level r)); [|by left].
    destruct (Z.leb_spec (toc_level r) 3); [lia|by right].
Qed.

Lemma omap_toc_entry doc : omap toc_entry (get_toc doc) = native_entries doc.
Proof.
  unfold native_entries. induction (get_toc doc) as [|r l IH]; [done|].
  csimpl. rewrite toc_entry_spec, IH. destruct (decide _) as [Hr|Hr].
  - by rewrite filter_cons_True.
  - by rewrite filter_cons_False.
Qed.

Lemma native_entries_nonnil doc r :
  r ∈ get_toc doc -> (1 <= toc_level r <= 3)%Z -> native_entries doc <> [].
Proof.
  intros Hin Hr Hnil. unfold native_entries in Hnil.
  apply fmap_nil_inv in Hnil.
  assert (r ∈ filter (fun r => (1 <= toc_level r <= 3)%Z) (get_toc doc)) as Hf
    by (by apply list_elem_of_filter).
  rewrite Hnil in Hf. by apply not_elem_of_nil in Hf.
Qed.

Lemma extract_outline_from_toc_some doc r :
  r ∈ get_toc doc -> (1 <= toc_level r <= 3)%Z ->
  extract_outline_from_toc doc = Some (native_entries doc).
Proof.
  intros Hin Hr. unfold extract_outline_from_toc.
  pose proof (native_entries_nonnil doc r Hin Hr) as Hne.
  pose proof (omap_toc_entry doc) as Homap.
  destruct (get_toc doc) eqn:Htoc; [by apply not_elem_of_nil in Hin|].
  rewrite Homap. by destruct (native_entries doc).
Qed.

End Driver.

(** C8. A document of more than 50 pages yields the synthetic record
    whatever it contains: the title is the base name of its path, the
    outline is the single entry (H1, "Error: PDF exceeds 50 page limit",
    page 1); the other documents of a batch get the records they get on
    their own. *)
Theorem page_limit_exceeded (f : pdf_file) (doc : document) (before after : list pdf_file) :
  fitz_open f = inr doc ->
  (50 < page_count doc)%nat ->
  title (res_data (process_single_pdf f)) = basename (pdf_path f)
  /\ outline (res_data (process_single_pdf f))
     = [Entry H1 (py "Error: PDF exceeds 50 page limit") 1%Z]
  /\ process_single_pdf f = page_limit_result (pdf_path f)
  /\ process_all (before ++ f :: after)
     = map process_single_pdf before
       ++ page_limit_result (pdf_path f) :: map process_single_pdf after.
Proof.
  intros Hopen Hlong.
  assert (process_single_pdf f = page_limit_result (pdf_path f)) as Hres.
  { unfold process_single_pdf, process_single_pdf_with. rewrite Hopen.
    apply Nat.ltb_lt in Hlong. by rewrite Hlong. }
  rewrite Hres. repeat split.
  unfold process_all. by rewrite map_app, map_cons, Hres.
Qed.

Lemma page_limit_exceeded_witness :
  title (res_data (process_single_pdf long_file)) = py "long.pdf"
  /\ outline (res_data (process_single_pdf long_file))
     = [Entry H1 (py "Error: PDF exceeds 50 page limit") 1%Z].
Proof.
  destruct (page_limit_exceeded long_file long_doc [toc_file] [report_file])
    as (Ht & Ho & _).
  - reflexivity.
  - unfold page_count, long_doc. simpl. lia.
  - split; [exact Ht | exact Ho].
Defined.

(** C3, as stated, fails: a document of 60 pages with the table of
    contents [(1, "Intro", 1)] gets the page-limit record, not its native
    entries. *)
Lemma toc_outline_counterexample :
  fitz_open long_file = inr long_doc
  /\ get_toc long_doc = [TocRow 1 (py "Intro") 1]
  /\ outline (res_data (process_single_pdf long_file))
     = [Entry H1 (py "Error: PDF exceeds 50 page limit") 1%Z]
  /\ outline (res_data (process_single_pdf long_file)) <> [Entry H1 (py "Intro") 1%Z].
Proof. repeat split. vm_compute. discriminate. Qed.

(** C3, amended. For a document that opens, has at most 50 pages, whose
    title resolution returns, and whose table of contents has a row of
    depth 1 to 3: whatever the heuristic extractor would do, the record is
    a success whose outline is the rows of depth 1 to 3 in their order,
    depth 1, 2, 3 mapped to H1, H2, H3, text stripped, page kept; deeper
    rows are left out. *)
Theorem toc_outline_preferred
    (heuristic : document -> exn + list outline_entry)
    (f : pdf_file) (doc : document) (t : str) (r : toc_row) :
  fitz_open f = inr doc ->
  (page_count doc <= 50)%nat ->
  get_title doc = inr t ->
  r ∈ get_toc doc -> (1 <= toc_level r <= 3)%Z ->
  process_single_pdf_with heuristic f
  = Result (pdf_path f) Success (Output t (native_entries doc)).
Proof.
  intros Hopen Hpages Htitle Hin Hr.
  unfold process_single_pdf_with. rewrite Hopen.
  replace (50 <? page_count doc)%nat with false
    by (symmetry; apply Nat.ltb_ge; lia).
  rewrite Htitle. by rewrite (extract_outline_from_toc_some doc r Hin Hr).
Qed.

Lemma toc_outline_preferred_witness :
  process_single_pdf_with (fun _ => inl (Exn OtherException (py "not called"))) toc_file
  = Result (py "./input/toc.pdf") Success
      (Output (py "Report") [Entry H1 (py "Intro") 1%Z; Entry H2 (py "Details") 2%Z]).
Proof.
  apply (toc_outline_preferred _ toc_file toc_doc (py "Report") (TocRow 1 (py "Intro") 1)).
  - reflexivity.
  - unfold page_count, toc_doc. simpl. lia.
  - reflexivity.
  - unfold toc_doc. simpl. apply list_elem_of_here.
  - simpl. lia.
Defined.

(** C2, as stated, fails for outlines taken from the table of contents: a
    table that lists (1, "Intro", 1) twice yields two entries with the same
    page and lowercased text. *)
Lemma toc_duplicates_counterexample :
  outline (res_data (process_single_pdf dup_toc_file))
  = [Entry H1 (py "Intro") 1%Z; Entry H1 (py "Intro") 1%Z]
  /\ ~ NoDup (map heading_key (outline (res_data (process_single_pdf dup_toc_file)))).
Proof.
  split; [reflexivity|].
  intros Hnd. vm_compute in Hnd.
  apply NoDup_cons in Hnd as [Hnotin _]. apply Hnotin. apply list_elem_of_here.
Qed.

(** C4, as stated, fails: when the layout call on the first page raises an
    exception that is neither IndexError nor ValueError, [get_title] raises
    it, and the document gets the error record. *)
Lemma get_title_raises_counterexample :
  blank_metadata broken_doc
  /\ get_title broken_doc = inl (Exn OtherException (py "cannot load page"))
  /\ res_status (process_single_pdf (PdfFile (py "./input/broken.pdf") (inr broken_doc)))
     = Error.
Proof. repeat split. Qed.

(** C4, amended. [get_title] returns a non-empty string whenever it
    returns. A non-blank metadata title is returned whitespace-normalized.
    Otherwise: a document without pages, a first page whose layout call
    raises IndexError or ValueError, and a first page without blocks give
    "Untitled Document"; a first page with blocks gives the largest-font
    result if that is longer than 4 characters and "Untitled Document" if
    not. [get_title] raises exactly when the metadata title is blank and
    the layout call on the first page raises an exception of another class,
    which it passes on. *)
Theorem get_title_contract (doc : document) :
  (forall t, get_title doc = inr t -> t <> [])
  /\ (forall meta, metadata_title doc = Some meta -> strip meta <> [] ->
        get_title doc = inr (normalize_ws meta))
  /\ (blank_metadata doc -> pages doc = [] -> get_title doc = inr untitled)
  /\ (forall p ps e, blank_metadata doc -> pages doc = p :: ps ->
        get_text_blocks p = inl e ->
        exn_kind e = IndexError \/ exn_kind e = ValueError ->
        get_title doc = inr untitled)
  /\ (forall p ps, blank_metadata doc -> pages doc = p :: ps ->
        get_text_blocks p = inr [] -> get_title doc = inr untitled)
  /\ (forall p ps blocks, blank_metadata doc -> pages doc = p :: ps ->
        get_text_blocks p = inr blocks ->
        get_title doc =
        inr (if (4 <? length (title_from_blocks blocks))%nat
             then title_from_blocks blocks else untitled))
  /\ (forall e, get_title doc = inl e <->
        blank_metadata doc /\ exn_kind e = OtherException /\
        exists p ps, pages doc = p :: ps /\ get_text_blocks p = inl e).
Proof.
  assert (forall t, title_heuristic doc = inr t -> t <> []) as Hheur.
  { unfold title_heuristic. intros t Ht.
    destruct (title_text_after_try doc) as [e|tt]; [done|].
    injection Ht as <-. destruct (4 <? length tt)%nat eqn:Hlen; [|done].
    apply Nat.ltb_lt in Hlen. intros ->. simpl in Hlen. lia. }
  assert (blank_metadata doc -> get_title doc = title_heuristic doc) as Hblank.
  { unfold blank_metadata, get_title. destruct (metadata_title doc) as [meta|]; [|done].
    intros ->. by rewrite andb_false_r. }
  assert (forall meta, metadata_title doc = Some meta -> strip meta <> [] ->
            get_title doc = inr (normalize_ws meta)) as Hmeta.
  { intros meta Hm Hs. unfold get_title. rewrite Hm.
    assert (meta <> []) as Hne by (intros ->; by apply Hs).
    apply is_nil_false in Hne, Hs. by rewrite Hne, Hs. }
  split; [|split; [exact Hmeta|]].
  { intros t Ht. destruct (metadata_title doc) as [meta|] eqn:Hm.
    - destruct (decide (strip meta = [])) as [Hs|Hs].
      + rewrite Hblank in Ht; [by apply Hheur|]. unfold blank_metadata. by rewrite Hm.
      + rewrite (Hmeta meta eq_refl Hs) in Ht. injection Ht as <-.
        by apply normalize_ws_nonnil.
    - rewrite Hblank in Ht; [by apply Hheur|]. unfold blank_metadata. by rewrite Hm. }
  split; [|split; [|split; [|split]]].
  - intros Hb Hp. rewrite (Hblank Hb).
    unfold title_heuristic, title_text_after_try, title_try. by rewrite Hp.
  - intros p ps e Hb Hp He Hk. rewrite (Hblank Hb).
    unfold title_heuristic, title_text_after_try, title_try, title_caught.
    rewrite Hp, He. by destruct Hk as [-> | ->].
  - intros p ps Hb Hp He. rewrite (Hblank Hb).
    unfold title_heuristic, title_text_after_try, title_try. by rewrite Hp, He.
  - intros p ps blocks Hb Hp He. rewrite (Hblank Hb).
    unfold title_heuristic, title_text_after_try, title_try. by rewrite Hp, He.
  - intros e. split.
    + intros Hraise.
      assert (blank_metadata doc) as Hb.
      { unfold blank_metadata. destruct (metadata_title doc) as [meta|] eqn:Hm; [|done].
        destruct (decide (strip meta = [])) as [Hs|Hs]; [done|].
        by rewrite (Hmeta meta eq_refl Hs) in Hraise. }
      split; [done|]. rewrite (Hblank Hb) in Hraise.
      unfold title_heuristic, title_text_after_try, title_try, title_caught in Hraise.
      destruct (pages doc) as [|p ps]; [done|].
      destruct (get_text_blocks p) as [e'|blocks] eqn:He; [|done].
      destruct (exn_kind e') eqn:Hk; try done.
      injection Hraise as <-. split; [done|]. by exists p, ps.
    + intros (Hb & Hk & p & ps & Hp & He). rewrite (Hblank Hb).
      unfold title_heuristic, title_text_after_try, title_try, title_caught.
      by rewrite Hp, He, Hk.
Qed.

Lemma get_title_contract_witness :
  get_title report_doc = inr (py "Annual Report").
Proof.
  destruct (get_title_contract report_doc) as (_ & _ & _ & _ & _ & Hblocks & _).
  rewrite (Hblocks _ _ _ I eq_refl eq_refl). vm_compute. reflexivity.
Defined.

(** * Counters *)

Section CounterFacts.
Context {K : Type} `{EqDecision K}.
Implicit Types (k : K) (c : list (K * nat)) (l : list K).

Lemma counter_snoc l k : counter (l ++ [k]) = counter_incr k (counter l).
Proof. unfold counter. by rewrite fold_left_app. Qed.

Lemma counter_incr_sum k c :
  sum_list (map snd (counter_incr k c)) = S (sum_list (map snd c)).
Proof.
  induction c as [|[k' n] c IH]; simpl; [done|].
  destruct (decide (k = k')); simpl; [done|]. rewrite IH. lia.
Qed.

Lemma counter_sum l : sum_list (map snd (counter l)) = length l.
Proof.
  induction l as [|k l IH] using rev_ind; [done|].
  rewrite counter_snoc, counter_incr_sum, IH, length_app. simpl. lia.
Qed.

Lemma counter_incr_keys k c :
  map fst (counter_incr k c) =
  if decide (k ∈ map fst c) then map fst c else map fst c ++ [k].
Proof.
  induction c as [|[k' n] c IH]; [done|].
  cbn [counter_incr map fst]. destruct (decide (k = k')) as [->|Hne]; cbn [map fst].
  - rewrite decide_True; [done|]. apply list_elem_of_here.
  - rewrite IH. destruct (decide (k ∈ map fst c)) as [Hin|Hnin].
    + rewrite decide_True; [done|]. by apply list_elem_of_further.
    + rewrite decide_False; [done|].
      intros [?|?]%elem_of_cons; [done|]. by apply Hnin.
Qed.

Lemma counter_keys_elem l k : k ∈ map fst (counter l) <-> k ∈ l.
Proof.
  induction l as [|x l IH] using rev_ind.
  - unfold counter. simpl. split; intros Hin; by apply not_elem_of_nil in Hin.
  - rewrite counter_snoc, counter_incr_keys, elem_of_app, list_elem_of_singleton.
    destruct (decide (x ∈ map fst (counter l))) as [Hx|Hx].
    + rewrite IH. split; [by left|]. intros [?| ->]; [done|]. by apply IH.
    + by rewrite elem_of_app, list_elem_of_singleton, IH.
Qed.

Lemma counter_keys_NoDup l : NoDup (map fst (counter l)).
Proof.
  induction l as [|x l IH] using rev_ind; [constructor|].
  rewrite counter_snoc, counter_incr_keys. case_decide; [done|].
  apply NoDup_app. split; [done|]. split; [|apply NoDup_singleton].
  intros y Hy ->%list_elem_of_singleton. done.
Qed.

Lemma counter_keys_prefix l1 l2 :
  map fst (counter l1) `prefix_of` map fst (counter (l1 ++ l2)).
Proof.
  induction l2 as [|x l2 IH] using rev_ind.
  - by rewrite app_nil_r.
  - rewrite app_assoc, counter_snoc, counter_incr_keys. case_decide; [done|].
    by apply prefix_app_r.
Qed.

(** The counter of a list, entry by entry: its keys with the number of
    their occurrences. *)
Lemma counter_incr_map k (ks : list K) (f g : K -> nat) :
  NoDup ks ->
  (forall k', k' <> k -> g k' = f k') ->
  (k ∈ ks -> g k = S (f k)) ->
  (k ∉ ks -> g k = 1%nat) ->
  counter_incr k (map (fun k' => (k', f k')) ks)
  = map (fun k' => (k', g k')) (if decide (k ∈ ks) then ks else ks ++ [k]).
Proof.
  intros Hnd Hother Hin Hnin. induction ks as [|k0 ks IH].
  - cbn [map counter_incr]. rewrite decide_False by apply not_elem_of_nil.
    simpl. by rewrite Hnin by apply not_elem_of_nil.
  - apply NoDup_cons in Hnd as [Hk0 Hnd]. cbn [map counter_incr].
    destruct (decide (k = k0)) as [->|Hne].
    + rewrite decide_True by apply list_elem_of_here.
      cbn [map]. rewrite Hin by apply list_elem_of_here. f_equal.
      apply map_ext_in. intros k' Hk'%list_elem_of_In.
      rewrite Hother; [done|]. by intros ->.
    + rewrite IH; [| done | |].
      * rewrite <- (Hother k0) by done.
        destruct (decide (k ∈ ks)) as [Hks|Hks].
        -- rewrite decide_True by (by apply list_elem_of_further). done.
        -- rewrite decide_False; [done|].
           intros [?|?]%elem_of_cons; [done|]. by apply Hks.
      * intros Hks. apply Hin. by apply list_elem_of_further.
      * intros Hks. apply Hnin. intros [?|?]%elem_of_cons; [done|]. by apply Hks.
Qed.

Lemma occurrences_snoc k l x :
  occurrences k (l ++ [x]) = (occurrences k l + if decide (x = k) then 1 else 0)%nat.
Proof.
  unfold occurrences. rewrite filter_app, length_app. f_equal.
  destruct (decide (x = k)) as [->|Hne].
  - by rewrite filter_cons_True.
  - by rewrite filter_cons_False.
Qed.

Lemma occurrences_zero k l : k ∉ l -> occurrences k l = 0%nat.
Proof.
  intros Hk. unfold occurrences. induction l as [|x l IH]; [done|].
  rewrite filter_cons_False.
  - apply IH. intros ?. by apply Hk, list_elem_of_further.
  - intros ->. apply Hk, list_elem_of_here.
Qed.

Lemma counter_map l :
  counter l = map (fun k => (k, occurrences k l)) (map fst (counter l)).
Proof.
  induction l as [|x l IH] using rev_ind; [done|].
  rewrite counter_snoc, counter_incr_keys.
  rewrite IH at 1.
  apply counter_incr_map.
  - apply counter_keys_NoDup.
  - intros k' Hne. rewrite occurrences_snoc. rewrite decide_False by done. lia.
  - intros _. rewrite occurrences_snoc. rewrite decide_True by done. lia.
  - intros Hx. rewrite occurrences_snoc. rewrite decide_True by done.
    rewrite occurrences_zero; [done|]. by rewrite <- counter_keys_elem.
Qed.

Lemma counter_elem l k n : (k, n) ∈ counter l -> k ∈ l /\ n = occurrences k l.
Proof.
  intros Hin. split.
  - apply counter_keys_elem. apply list_elem_of_fmap. by exists (k, n).
  - rewrite counter_map in Hin. apply list_elem_of_fmap in Hin as (k' & Heq & _).
    by injection Heq as -> ->.
Qed.

(** [max_by_count] returns the first entry of greatest count. *)
Lemma max_by_count_spec best c :
  exists c1 c2,
    best :: c = c1 ++ max_by_count best c :: c2
    /\ (forall x, x ∈ c1 -> (snd x < snd (max_by_count best c))%nat)
    /\ (forall x, x ∈ c2 -> (snd x <= snd (max_by_count best c))%nat).
Proof.
  revert best. induction c as [|kv c IH]; intros best; simpl.
  - exists [], []. repeat split; intros x Hx; by apply not_elem_of_nil in Hx.
  - destruct (snd best <? snd kv)%nat eqn:Hlt.
    + apply Nat.ltb_lt in Hlt.
      destruct (IH kv) as (c1 & c2 & Heq & H1 & H2).
      assert (snd kv <= snd (max_by_count kv c))%nat as Hkv.
      { destruct c1 as [|x c1].
        - injection Heq as Hx _. rewrite <- Hx. lia.
        - injection Heq as <- _. apply Nat.lt_le_incl, H1, list_elem_of_here. }
      exists (best :: c1), c2. split; [by rewrite Heq|]. split; [|done].
      intros x [->|Hx]%elem_of_cons; [lia|by apply H1].
    + apply Nat.ltb_ge in Hlt.
      destruct (IH best) as (c1 & c2 & Heq & H1 & H2).
      destruct c1 as [|x c1].
      * injection Heq as Hx Hc. exists [], (kv :: c2).
        split; [simpl; by rewrite <- Hx, Hc|]. split.
        -- intros y Hy. by apply not_elem_of_nil in Hy.
        -- intros y [->|Hy]%elem_of_cons; [by rewrite <- Hx|by apply H2].
      * injection Heq as <- Hc. exists (best :: kv :: c1), c2.
        split; [simpl; do 2 f_equal; exact Hc|]. split; [|done].
        assert (snd best < snd (max_by_count best c))%nat as Hb
          by apply H1, list_elem_of_here.
        intros y [->|[->|Hy]%elem_of_cons]%elem_of_cons; [done|lia|].
        apply H1. by apply list_elem_of_further.
Qed.

Lemma repeated_words_bound (c : list (str * nat)) :
  (2 * repeated_words c <= sum_list (map snd c))%nat.
Proof.
  unfold repeated_words. induction c as [|[w n] c IH]; simpl; [lia|].
  destruct (1 <? n)%nat eqn:Hn.
  - rewrite filter_cons_True by done. apply Nat.ltb_lt in Hn. simpl. lia.
  - rewrite filter_cons_False by (simpl; congruence). lia.
Qed.

End CounterFacts.

Lemma repetition_check_never_fires (words : list str) :
  repetition_check words = false.
Proof.
  unfold repetition_check. apply Nat.ltb_ge.
  rewrite <- (counter_sum words). apply repeated_words_bound.
Qed.

(** C1. The claim describes the intended rule; line 73 does not implement
    it. The code divides the number of repeated distinct words by the
    number of all words, a ratio that never exceeds one half, so the check
    rejects nothing. On "spam spam spam spam spam spam spam" (34
    characters, 7 words, its one distinct word repeated) the rule of the
    claim rejects and [clean_text] returns the text. *)
Theorem repetition_rule_not_enforced :
  (forall words, repetition_check words = false)
  /\ let text := py "spam spam spam spam spam spam spam" in
     normalize_ws text = text
     /\ (30 < length text)%nat
     /\ (5 < length (split text))%nat
     /\ spec_repetition_reject (split text) = true
     /\ clean_text text = text.
Proof.
  split; [apply repetition_check_never_fires|].
  vm_compute. repeat split; lia.
Qed.

(** C5. In a document with at least one text block, the body size is a
    size of greatest count, and every size met before its first occurrence
    in page-then-block order has a strictly smaller count. *)
Theorem body_size_is_first_mode (doc : document) :
  all_text_blocks doc <> [] ->
  exists body before after,
    body_text_size (all_text_blocks doc) = Some body
    /\ map tb_font_size (all_text_blocks doc) = before ++ body :: after
    /\ (body ∉ before)
    /\ (forall s, (occurrences s (map tb_font_size (all_text_blocks doc))
                   <= occurrences body (map tb_font_size (all_text_blocks doc)))%nat)
    /\ (forall s, s ∈ before ->
          (occurrences s (map tb_font_size (all_text_blocks doc))
           < occurrences body (map tb_font_size (all_text_blocks doc)))%nat).
Proof.
  intros Hne. set (sizes := map tb_font_size (all_text_blocks doc)).
  assert (sizes <> []) as Hsizes.
  { unfold sizes. intros Hnil%fmap_nil_inv. done. }
  unfold body_text_size, font_counts. fold sizes.
  destruct (counter sizes) as [|kv c] eqn:Hc.
  { exfalso. destruct sizes as [|x sizes']; [done|].
    assert (x ∈ map fst (counter (x :: sizes'))) as Hx
      by apply counter_keys_elem, list_elem_of_here.
    rewrite Hc in Hx. by apply not_elem_of_nil in Hx. }
  cbn [most_common1 fmap option_fmap option_map].
  destruct (max_by_count_spec kv c) as (c1 & c2 & Heq & Hlt & Hle).
  destruct (max_by_count kv c) as [body n] eqn:Hmax. cbn [fst snd] in *.
  rewrite <- Hc in Heq.
  assert ((body, n) ∈ counter sizes) as Hbody.
  { rewrite Heq. apply elem_of_app. right. apply list_elem_of_here. }
  apply counter_elem in Hbody as [Hin ->].
  apply list_elem_of_split_l in Hin as (before & after & Hsplit & Hnotin).
  exists body, before, after. split; [done|]. split; [done|]. split; [done|].
  assert (forall s m, (s, m) ∈ counter sizes -> m = occurrences s sizes) as Hcount.
  { intros s m Hsm. by apply counter_elem in Hsm as [_ ->]. }
  split.
  - intros s. destruct (decide (s ∈ sizes)) as [Hs|Hs].
    + apply counter_keys_elem in Hs.
      apply list_elem_of_fmap in Hs as ([s' m] & -> & Hsm). cbn [fst].
      rewrite <- (Hcount _ _ Hsm). rewrite Heq in Hsm.
      apply elem_of_app in Hsm as [Hsm|[Hsm|Hsm]%elem_of_cons].
      * apply Nat.lt_le_incl. by apply (Hlt (s', m)).
      * by injection Hsm as _ ->.
      * by apply (Hle (s', m)).
    + rewrite (occurrences_zero s) by done. lia.
  - intros s Hs.
    pose proof (counter_keys_prefix before (body :: after)) as [rest Hpre].
    rewrite <- Hsplit, Heq, map_app in Hpre. cbn [map fst] in Hpre.
    apply app_eq_app in Hpre as [l [[Hk1 Hk2]|[Hk1 Hk2]]].
    + assert (s ∈ map fst c1) as Hs1.
      { rewrite Hk1. apply elem_of_app. left. by apply counter_keys_elem. }
      apply list_elem_of_fmap in Hs1 as ([s' m] & -> & Hsm). cbn [fst].
      rewrite <- (Hcount s' m).
      * by apply (Hlt (s', m)).
      * rewrite Heq. apply elem_of_app. by left.
    + destruct l as [|x l].
      * rewrite app_nil_r in Hk1.
        assert (s ∈ map fst c1) as Hs1 by (rewrite <- Hk1; by apply counter_keys_elem).
        apply list_elem_of_fmap in Hs1 as ([s' m] & -> & Hsm). cbn [fst].
        rewrite <- (Hcount s' m).
        -- by apply (Hlt (s', m)).
        -- rewrite Heq. apply elem_of_app. by left.
      * exfalso. injection Hk2 as <- _. apply Hnotin. apply counter_keys_elem.
        rewrite Hk1. apply elem_of_app. right. apply list_elem_of_here.
Qed.

Lemma body_size_is_first_mode_witness :
  exists body before after,
    body_text_size (all_text_blocks report_doc) = Some body
    /\ map tb_font_size (all_text_blocks report_doc) = before ++ body :: after
    /\ (body ∉ before)
    /\ (forall s, (occurrences s (map tb_font_size (all_text_blocks report_doc))
                   <= occurrences body (map tb_font_size (all_text_blocks report_doc)))%nat)
    /\ (forall s, s ∈ before ->
          (occurrences s (map tb_font_size (all_text_blocks report_doc))
           < occurrences body (map tb_font_size (all_text_blocks report_doc)))%nat).
Proof.
  apply (body_size_is_first_mode report_doc). vm_compute. discriminate.
Defined.


(** * The font profile *)

Section FontProfile.

#[local] Instance desc_transitive : Transitive desc.
Proof. unfold desc. intros a b c ? ?. lia. Qed.

#[local] Instance desc_total : Total desc.
Proof. unfold desc. intros a b. lia. Qed.

Lemma strictly_desc_of_NoDup (l : list Z) :
  StronglySorted desc l -> NoDup l -> StronglySorted (fun a b => (b < a)%Z) l.
Proof.
  induction 1 as [|a l Hs IH Hall]; intros Hnd; constructor.
  - apply IH. by apply NoDup_cons in Hnd as [_ ?].
  - apply NoDup_cons in Hnd as [Hnotin _].
    apply Forall_forall. intros b Hb.
    rewrite Forall_forall in Hall. pose proof (Hall b Hb) as Hle. unfold desc in Hle.
    assert (b <> a) by (intros ->; done). lia.
Qed.

Lemma heading_sizes_perm blocks body :
  heading_sizes_of blocks body
  ≡ₚ filter (fun size => (body < size)%Z) (map fst (font_counts blocks)).
Proof. apply merge_sort_Permutation. Qed.

Lemma heading_sizes_strictly_desc blocks body :
  StronglySorted (fun a b => (b < a)%Z) (heading_sizes_of blocks body).
Proof.
  apply strictly_desc_of_NoDup.
  - apply StronglySorted_merge_sort; apply _.
  - rewrite heading_sizes_perm. apply NoDup_filter, counter_keys_NoDup.
Qed.

Lemma heading_sizes_elem blocks body s :
  s ∈ heading_sizes_of blocks body <->
  (body < s)%Z /\ s ∈ map tb_font_size blocks.
Proof.
  rewrite heading_sizes_perm, list_elem_of_filter. unfold font_counts.
  by rewrite counter_keys_elem.
Qed.

Lemma foldl_insert_H3 (rest : list Z) (m0 : gmap Z level) (k : Z) :
  foldl (fun m size => <[size := H3]> m) m0 rest !! k
  = if decide (k ∈ rest) then Some H3 else m0 !! k.
Proof.
  revert m0. induction rest as [|s rest IH]; intros m0; cbn [foldl].
  - rewrite decide_False; [done|]. apply not_elem_of_nil.
  - rewrite IH. destruct (decide (k ∈ rest)) as [Hin|Hnin].
    + rewrite decide_True; [done|]. by apply list_elem_of_further.
    + destruct (decide (k = s)) as [->|Hne].
      * rewrite decide_True by apply list_elem_of_here. apply lookup_insert_eq.
      * rewrite decide_False.
        -- by apply lookup_insert_ne.
        -- intros [?|?]%elem_of_cons; [done|]. by apply Hnin.
Qed.

(** The level of a rank in the descending list of heading sizes. *)
Lemma rank_level_le (i j : nat) :
  (i <= j)%nat ->
  level_le (match i with O => H1 | S O => H2 | _ => H3 end)
           (match j with O => H1 | S O => H2 | _ => H3 end).
Proof.
  intros Hij. destruct i as [|[|i]], j as [|[|j]]; try lia; by vm_compute.
Qed.

Lemma strictly_desc_head (a : Z) (l : list Z) :
  StronglySorted (fun a b => (b < a)%Z) (a :: l) ->
  StronglySorted (fun a b => (b < a)%Z) l /\ forall b, b ∈ l -> (b < a)%Z.
Proof.
  intros Hs. apply StronglySorted_inv in Hs as [Hs Hall].
  split; [done|]. by apply Forall_forall.
Qed.

Lemma strictly_desc_lookup (l : list Z) (i j : nat) (a b : Z) :
  StronglySorted (fun a b => (b < a)%Z) l ->
  l !! i = Some a -> l !! j = Some b -> (b < a)%Z -> (i < j)%nat.
Proof.
  intros Hs. revert i j. induction Hs as [|x l Hs IH Hall]; intros i j Hi Hj Hlt.
  - done.
  - rewrite Forall_forall in Hall. destruct i as [|i], j as [|j]; simpl in *.
    + injection Hi as ->. injection Hj as ->. lia.
    + lia.
    + injection Hj as ->. apply list_elem_of_lookup_2 in Hi.
      pose proof (Hall a Hi). lia.
    + apply -> Nat.succ_lt_mono. by apply IH.
Qed.

Lemma size_to_level_lookup (hs : list Z) (i : nat) (s : Z) :
  StronglySorted (fun a b => (b < a)%Z) hs ->
  hs !! i = Some s ->
  size_to_level_of hs !! s = Some (match i with O => H1 | S O => H2 | _ => H3 end).
Proof.
  intros Hs Hi.
  destruct hs as [|a [|b [|c rest]]]; [done| | |].
  - destruct i as [|i]; [|done]. injection Hi as ->. apply lookup_insert_eq.
  - apply strictly_desc_head in Hs as [_ Ha].
    assert (b < a)%Z by apply Ha, list_elem_of_here.
    destruct i as [|[|i]]; [| |done]; injection Hi as ->; simpl.
    + rewrite lookup_insert_ne by lia. apply lookup_insert_eq.
    + apply lookup_insert_eq.
  - apply strictly_desc_head in Hs as [Hs Ha].
    apply strictly_desc_head in Hs as [_ Hb].
    assert (b < a)%Z by apply Ha, list_elem_of_here.
    cbn [size_to_level_of]. rewrite foldl_insert_H3.
    destruct i as [|[|i]].
    + injection Hi as ->. rewrite decide_False.
      * rewrite lookup_insert_ne by lia. apply lookup_insert_eq.
      * intros Hin. assert (s < s)%Z; [|lia]. by apply Ha, list_elem_of_further.
    + injection Hi as ->. rewrite decide_False; [apply lookup_insert_eq|].
      intros Hin. assert (s < s)%Z; [|lia]. by apply Hb.
    + rewrite decide_True; [done|]. simpl in Hi. by apply list_elem_of_lookup_2 in Hi.
Qed.

Lemma size_to_level_absent (hs : list Z) (s : Z) :
  s ∉ hs -> size_to_level_of hs !! s = None.
Proof.
  intros Hs.
  assert (forall x, x ∈ hs -> x <> s) as Hne by (by intros x Hx ->).
  destruct hs as [|a [|b [|c rest]]]; cbn [size_to_level_of].
  - apply lookup_empty.
  - rewrite lookup_insert_ne by (apply Hne; repeat constructor).
    apply lookup_empty.
  - do 2 (rewrite lookup_insert_ne by (apply Hne; repeat constructor)).
    apply lookup_empty.
  - rewrite foldl_insert_H3. rewrite decide_False.
    + do 2 (rewrite lookup_insert_ne by (apply Hne; repeat constructor)).
      apply lookup_empty.
    + intros Hin. apply Hs. by do 2 apply list_elem_of_further.
Qed.

End FontProfile.

(** C7. For the blocks of any document and any body size (in particular the
    one the profiler computes), the heading sizes are strictly descending
    and the level map is: empty for no size; H1 for one size; H1 and H2 for
    two; and for three or more, H1 for the largest, H2 for the second and
    H3 for every other one. Sizes that are not heading sizes have no level.
    Hence of two heading sizes the larger has the lexicographically smaller
    or equal level token. *)
Theorem level_map_by_rank (blocks : list text_block) (body : Z) :
  StronglySorted (fun a b => (b < a)%Z) (heading_sizes_of blocks body)
  /\ match heading_sizes_of blocks body with
     | [] => size_to_level_of (heading_sizes_of blocks body) = ∅
     | [a] => size_to_level_of (heading_sizes_of blocks body) = {[ a := H1 ]}
     | [a; b] =>
         size_to_level_of (heading_sizes_of blocks body) = <[ b := H2 ]> {[ a := H1 ]}
     | a :: b :: rest =>
         size_to_level_of (heading_sizes_of blocks body) !! a = Some H1
         /\ size_to_level_of (heading_sizes_of blocks body) !! b = Some H2
         /\ forall c, c ∈ rest ->
              size_to_level_of (heading_sizes_of blocks body) !! c = Some H3
     end
  /\ (forall s, s ∉ heading_sizes_of blocks body ->
        size_to_level_of (heading_sizes_of blocks body) !! s = None)
  /\ (forall a b, a ∈ heading_sizes_of blocks body ->
        b ∈ heading_sizes_of blocks body -> (b < a)%Z ->
        exists la lb,
          size_to_level_of (heading_sizes_of blocks body) !! a = Some la
          /\ size_to_level_of (heading_sizes_of blocks body) !! b = Some lb
          /\ level_le la lb).
Proof.
  pose proof (heading_sizes_strictly_desc blocks body) as Hs.
  set (hs := heading_sizes_of blocks body) in *.
  split; [done|]. split; [|split].
  - destruct hs as [|a [|b [|c rest]]] eqn:Hhs; [done..|].
    split; [|split].
    + by apply (size_to_level_lookup _ 0).
    + by apply (size_to_level_lookup _ 1).
    + intros x Hx. apply list_elem_of_lookup_1 in Hx as [i Hi].
      by apply (size_to_level_lookup _ (S (S i))).
  - apply size_to_level_absent.
  - intros a b Ha Hb Hlt.
    apply list_elem_of_lookup_1 in Ha as [i Hi].
    apply list_elem_of_lookup_1 in Hb as [j Hj].
    eexists _, _. split; [by apply (size_to_level_lookup hs i)|].
    split; [by apply (size_to_level_lookup hs j)|].
    apply rank_level_le, Nat.lt_le_incl.
    by apply (strictly_desc_lookup hs i j a b).
Qed.

(** * Pass 2: classification and the duplicate check *)

Section Pass2.
Implicit Types (st : pass2_state) (e : outline_entry) (cands : list outline_entry).

Lemma pass2_as_candidates body hs stl blocks st :
  foldl (pass2_step body hs stl) st blocks
  = foldl add_heading st (omap (heading_entry body hs stl) blocks).
Proof.
  revert st. induction blocks as [|b blocks IH]; intros st; [done|].
  csimpl. unfold pass2_step at 2.
  destruct (heading_entry body hs stl b) as [e|]; simpl; apply IH.
Qed.

Lemma foldl_add_heading cands : forall (o : list outline_entry) (p : gset (Z * str)),
  (forall k, k ∈ p <-> k ∈ map heading_key o) ->
  NoDup (map heading_key o) ->
  exists ext,
    (foldl add_heading (o, p) cands).1 = o ++ ext
    /\ NoDup (map heading_key (o ++ ext))
    /\ sublist ext cands
    /\ forall e, e ∈ ext <->
         exists c1 c2, cands = c1 ++ e :: c2 /\ (heading_key e ∉ p)
                       /\ forall e', e' ∈ c1 -> heading_key e' <> heading_key e.
Proof.
  induction cands as [|e0 cands IH]; intros o p Hp Hnd.
  - exists []. rewrite app_nil_r. repeat split; try done.
    + intros He. by apply not_elem_of_nil in He.
    + intros (c1 & c2 & Heq & _). by destruct c1.
  - cbn [foldl]. unfold add_heading at 2. cbn [fst snd].
    destruct (decide (heading_key e0 ∈ p)) as [Hin|Hnin].
    + destruct (IH o p Hp Hnd) as (ext & Hext & Hnd' & Hsub & Hmem).
      exists ext. split; [done|]. split; [done|].
      split; [by apply sublist_cons|].
      intros e. rewrite Hmem. split.
      * intros (c1 & c2 & -> & Hk & Hfirst). exists (e0 :: c1), c2.
        split; [done|]. split; [done|].
        intros e' [->|He']%elem_of_cons; [|by apply Hfirst].
        intros Heq. apply Hk. by rewrite <- Heq.
      * intros (c1 & c2 & Heq & Hk & Hfirst). destruct c1 as [|x c1].
        -- injection Heq as -> _. done.
        -- injection Heq as -> ->. exists c1, c2. split; [done|]. split; [done|].
           intros e' He'. apply Hfirst. by apply list_elem_of_further.
    + destruct (IH (o ++ [e0]) (p ∪ {[heading_key e0]})) as (ext & Hext & Hnd' & Hsub & Hmem).
      * intros k. rewrite elem_of_union, elem_of_singleton, map_app, elem_of_app, Hp.
        cbn [map]. by rewrite list_elem_of_singleton.
      * rewrite map_app. apply NoDup_app. split; [done|].
        split; [|apply NoDup_singleton].
        intros k Hk ->%list_elem_of_singleton. by apply Hnin, Hp.
      * exists (e0 :: ext). rewrite <- app_assoc in Hext, Hnd'.
        split; [done|]. split; [done|]. split; [by apply sublist_skip|].
        intros e. rewrite elem_of_cons, Hmem. split.
        -- intros [->|(c1 & c2 & -> & Hk & Hfirst)].
           ++ exists [], cands. repeat split; [done|].
              intros e' He'. by apply not_elem_of_nil in He'.
           ++ rewrite not_elem_of_union, not_elem_of_singleton in Hk.
              destruct Hk as [Hk Hne]. exists (e0 :: c1), c2.
              split; [done|]. split; [done|].
              intros e' [->|He']%elem_of_cons; [done|by apply Hfirst].
        -- intros (c1 & c2 & Heq & Hk & Hfirst). destruct c1 as [|x c1].
           ++ injection Heq as -> _. by left.
           ++ injection Heq as -> ->. right. exists c1, c2. split; [done|]. split.
              ** rewrite not_elem_of_union, not_elem_of_singleton. split; [done|].
                 intros Heq. symmetry in Heq. revert Heq. apply Hfirst, list_elem_of_here.
              ** intros e' He'. apply Hfirst. by apply list_elem_of_further.
Qed.

Lemma outline_of_blocks_spec (blocks : list text_block) :
  NoDup (map heading_key (outline_of_blocks blocks))
  /\ sublist (outline_of_blocks blocks) (heading_candidates blocks)
  /\ forall e, e ∈ outline_of_blocks blocks <-> first_of_key e (heading_candidates blocks).
Proof.
  unfold outline_of_blocks, heading_candidates, first_of_key.
  destruct (body_text_size blocks) as [body|].
  - cbn zeta. rewrite pass2_as_candidates.
    edestruct (foldl_add_heading
                 (omap (heading_entry body (heading_sizes_of blocks body)
                          (size_to_level_of (heading_sizes_of blocks body))) blocks)
                 [] ∅) as (ext & Hext & Hnd & Hsub & Hmem).
    { intros k. cbn [map]. split; intros Hk; [by apply not_elem_of_empty in Hk|].
      by apply not_elem_of_nil in Hk. }
    { constructor. }
    rewrite Hext. cbn [app] in *. split; [done|]. split; [done|].
    intros e. rewrite Hmem. split.
    + intros (c1 & c2 & ? & _ & ?). by exists c1, c2.
    + intros (c1 & c2 & ? & ?). exists c1, c2. split; [done|]. split; [|done].
      apply not_elem_of_empty.
  - split; [constructor|]. split; [done|]. intros e. split.
    + intros He. by apply not_elem_of_nil in He.
    + intros (c1 & c2 & Heq & _). by destruct c1.
Qed.

Lemma outline_entry_origin (blocks : list text_block) (e : outline_entry) :
  e ∈ outline_of_blocks blocks ->
  exists body b,
    b ∈ blocks
    /\ body_text_size blocks = Some body
    /\ heading_entry body (heading_sizes_of blocks body)
         (size_to_level_of (heading_sizes_of blocks body)) b = Some e.
Proof.
  intros He. apply outline_of_blocks_spec in He as (c1 & c2 & Heq & _).
  unfold heading_candidates in Heq.
  destruct (body_text_size blocks) as [body|]; [|by destruct c1].
  assert (e ∈ omap (heading_entry body (heading_sizes_of blocks body)
                      (size_to_level_of (heading_sizes_of blocks body))) blocks) as Hin.
  { cbn zeta in Heq. rewrite Heq. apply elem_of_app. right. apply list_elem_of_here. }
  apply list_elem_of_omap in Hin as (b & Hb & Hentry). by exists body, b.
Qed.

Lemma heading_entry_some body hs stl b e :
  heading_entry body hs stl b = Some e ->
  entry_text e = clean_text (tb_text b)
  /\ entry_page e = tb_page b
  /\ is_likely_heading (clean_text (tb_text b)) (tb_font_size b) (tb_is_bold b) body hs = true
  /\ resolve_level stl body (tb_font_size b) (tb_is_bold b) = Some (entry_level e).
Proof.
  unfold heading_entry.
  destruct (is_nil (clean_text (tb_text b))); [done|].
  destruct (is_likely_heading _ _ _ _ _); [|done]. cbn [negb].
  destruct (resolve_level _ _ _ _) as [l|]; [|done].
  intros [= <-]. done.
Qed.

End Pass2.

(** C2, amended. In the outline heuristic extraction returns, no two
    entries share the pair (page, lowercased text): the entries are those
    built for the blocks, in block order, and of the entries with the same
    pair exactly the first is kept. So every record whose outline does not
    come from the table of contents has this property. Outlines taken from
    the table of contents are emitted as listed. *)
Theorem heuristic_outline_deduplicated (doc : document) :
  NoDup (map heading_key (extract_outline_heuristically doc))
  /\ sublist (extract_outline_heuristically doc)
             (heading_candidates (all_text_blocks doc))
  /\ (forall e, e ∈ extract_outline_heuristically doc <->
                first_of_key e (heading_candidates (all_text_blocks doc)))
  /\ (forall f, fitz_open f = inr doc -> extract_outline_from_toc doc = None ->
        NoDup (map heading_key (outline (res_data (process_single_pdf f))))).
Proof.
  unfold extract_outline_heuristically.
  destruct (outline_of_blocks_spec (all_text_blocks doc)) as (Hnd & Hsub & Hmem).
  split; [done|]. split; [done|]. split; [done|].
  intros f Hopen Htoc. unfold process_single_pdf, process_single_pdf_with.
  rewrite Hopen, Htoc.
  destruct (50 <? page_count doc)%nat; [apply NoDup_singleton|].
  destruct (get_title doc); [apply NoDup_singleton|]. done.
Qed.

Lemma heuristic_outline_deduplicated_witness :
  NoDup (map heading_key (outline (res_data (process_single_pdf report_file)))).
Proof.
  destruct (heuristic_outline_deduplicated report_doc) as (_ & _ & _ & Hfile).
  apply (Hfile report_file); reflexivity.
Defined.

(** C10. [is_likely_heading] is false for a text whose stripped form has
    fewer than two characters, and every entry of a heuristic outline has
    a text of at least two characters. *)
Theorem short_text_never_heading :
  (forall text font_size is_bold body_size heading_sizes,
     (length (strip text) < 2)%nat ->
     is_likely_heading text font_size is_bold body_size heading_sizes = false)
  /\ (forall doc e, e ∈ extract_outline_heuristically doc ->
        (2 <= length (entry_text e))%nat).
Proof.
  assert (forall text font_size is_bold body_size heading_sizes,
     (length (strip text) < 2)%nat ->
     is_likely_heading text font_size is_bold body_size heading_sizes = false) as Hshort.
  { intros text fs bold body hs Hlen. unfold is_likely_heading.
    apply Nat.ltb_lt in Hlen. by rewrite Hlen, orb_true_r. }
  split; [exact Hshort|].
  intros doc e He. apply outline_entry_origin in He as (body & b & _ & _ & Hentry).
  apply heading_entry_some in Hentry as (-> & _ & Hheading & _).
  destruct (decide (length (strip (clean_text (tb_text b))) < 2)%nat) as [Hlt|Hge].
  - by rewrite Hshort in Hheading.
  - pose proof (strip_length (clean_text (tb_text b))). lia.
Qed.

Lemma short_text_never_heading_witness :
  is_likely_heading (py " x ") 30 true 10 [] = false.
Proof.
  destruct short_text_never_heading as [Hshort _].
  apply Hshort. vm_compute. lia.
Defined.

(** C6. A block classified as a heading whose font size has no level in
    the level map gets the level H3 when it is bold and its size is at
    least the body size, and is skipped otherwise. In particular, when the
    body size is 10, the size 10 has no level, and the bold block
    "1.1 Overview" of size 10 on page 3 yields the entry (H3,
    "1.1 Overview", 3), which is in the outline unless an earlier block
    already gave an entry with the same page and lowercased text. *)
Theorem unranked_heading_level :
  (forall body heading_sizes (size_to_level : gmap Z level) b,
     clean_text (tb_text b) <> [] ->
     is_likely_heading (clean_text (tb_text b)) (tb_font_size b) (tb_is_bold b)
       body heading_sizes = true ->
     size_to_level !! tb_font_size b = None ->
     heading_entry body heading_sizes size_to_level b
     = if tb_is_bold b && (body <=? tb_font_size b)%Z
       then Some (Entry H3 (clean_text (tb_text b)) (tb_page b))
       else None)
  /\ (forall blocks before after,
        blocks = before ++ overview_block :: after ->
        body_text_size blocks = Some 10%Z ->
        size_to_level_of (heading_sizes_of blocks 10) !! 10%Z = None
        /\ heading_entry 10 (heading_sizes_of blocks 10)
             (size_to_level_of (heading_sizes_of blocks 10)) overview_block
           = Some (Entry H3 (py "1.1 Overview") 3)
        /\ ((forall b' e', b' ∈ before ->
               heading_entry 10 (heading_sizes_of blocks 10)
                 (size_to_level_of (heading_sizes_of blocks 10)) b' = Some e' ->
               heading_key e' <> (3%Z, py "1.1 overview")) ->
            Entry H3 (py "1.1 Overview") 3 ∈ outline_of_blocks blocks)).
Proof.
  assert (forall body heading_sizes (size_to_level : gmap Z level) b,
     clean_text (tb_text b) <> [] ->
     is_likely_heading (clean_text (tb_text b)) (tb_font_size b) (tb_is_bold b)
       body heading_sizes = true ->
     size_to_level !! tb_font_size b = None ->
     heading_entry body heading_sizes size_to_level b
     = if tb_is_bold b && (body <=? tb_font_size b)%Z
       then Some (Entry H3 (clean_text (tb_text b)) (tb_page b))
       else None) as Hrule.
  { intros body hs stl b Hclean Hheading Hlevel.
    unfold heading_entry, resolve_level.
    apply is_nil_false in Hclean. rewrite Hclean, Hheading, Hlevel. cbn [negb].
    by destruct (tb_is_bold b && (body <=? tb_font_size b)%Z). }
  split; [exact Hrule|].
  intros blocks before after Hblocks Hbody.
  assert (size_to_level_of (heading_sizes_of blocks 10) !! 10%Z = None) as Hunranked.
  { apply size_to_level_absent. rewrite heading_sizes_elem. lia. }
  assert (heading_entry 10 (heading_sizes_of blocks 10)
            (size_to_level_of (heading_sizes_of blocks 10)) overview_block
          = Some (Entry H3 (py "1.1 Overview") 3)) as Hentry.
  { rewrite Hrule; [done | by vm_compute | by vm_compute | done]. }
  split; [done|]. split; [done|].
  intros Hfirst. apply outline_of_blocks_spec.
  unfold first_of_key, heading_candidates. rewrite Hbody. cbn zeta.
  set (entry_of := heading_entry 10 (heading_sizes_of blocks 10)
                     (size_to_level_of (heading_sizes_of blocks 10))) in *.
  exists (omap entry_of before), (omap entry_of after).
  split.
  - rewrite Hblocks, omap_app. f_equal. csimpl. by rewrite Hentry.
  - intros e' (b' & Hb' & He')%list_elem_of_omap. by apply (Hfirst b' e').
Qed.

Lemma unranked_heading_level_witness :
  Entry H3 (py "1.1 Overview") 3 ∈ extract_outline_heuristically overview_doc.
Proof.
  destruct unranked_heading_level as [_ Hscenario].
  destruct (Hscenario (all_text_blocks overview_doc)
              [TextBlock (py "first page body text") 10 false 1;
               TextBlock (py "second page body text") 10 false 2]
              [TextBlock (py "third page body text") 10 false 3])
    as (_ & _ & Hin).
  - reflexivity.
  - reflexivity.
  - apply Hin. intros b' e' Hb' He'.
    apply elem_of_cons in Hb' as [->|Hb'].
    + vm_compute in He'. discriminate.
    + apply list_elem_of_singleton in Hb' as ->. vm_compute in He'. discriminate.
Defined.

(** * The matcher decides the denotation *)

Section Matcher.
Variable ic : bool.
Implicit Types (r a b : regex) (s rest : str) (c : ascii).

Lemma matches_cat_inv a b s rest :
  matches ic (Cat a b) s rest ->
  exists s1 s2, s = s1 ++ s2 /\ matches ic a s1 (s2 ++ rest) /\ matches ic b s2 rest.
Proof. inversion 1; subst. eauto. Qed.

Lemma matches_alt_inv a b s rest :
  matches ic (Alt a b) s rest -> matches ic a s rest \/ matches ic b s rest.
Proof. inversion 1; subst; eauto. Qed.

Lemma matches_set_inv neg items s rest :
  matches ic (Set_ neg items) s rest ->
  exists c, s = [c] /\ set_matches ic neg items c = true.
Proof. inversion 1; subst. eauto. Qed.

Lemma matches_eps_inv s rest : matches ic Eps s rest -> s = [].
Proof. by inversion 1. Qed.

Lemma matches_eos_inv s rest : matches ic Eos s rest -> s = [] /\ at_end rest = true.
Proof. by inversion 1. Qed.

Lemma matches_void_inv s rest : ~ matches ic Void s rest.
Proof. inversion 1. Qed.

Lemma matches_nil_nullable r s rest :
  matches ic r s rest -> s = [] -> nullable (at_end rest) r = true.
Proof.
  induction 1 as [ | | | a b s1 s2 rest _ IH1 _ IH2 | | | | ]; intros Hnil;
    simpl; try done.
  - apply app_eq_nil in Hnil as [-> ->].
    specialize (IH1 eq_refl). simpl in IH1. by rewrite IH1, IH2.
  - rewrite IHmatches; done.
  - rewrite IHmatches by done. apply orb_true_r.
Qed.

Lemma nullable_matches r rest :
  nullable (at_end rest) r = true -> matches ic r [] rest.
Proof.
  induction r as [ | | | neg items | a IHa b IHb | a IHa b IHb | a IHa ]; simpl; intros Hn;
    try done.
  - constructor.
  - by constructor.
  - apply andb_true_iff in Hn as [Ha Hb].
    apply (M_cat ic a b [] [] rest); [apply IHa|apply IHb]; done.
  - apply orb_true_iff in Hn as [Ha|Hb].
    + apply M_alt_l. by apply IHa.
    + apply M_alt_r. by apply IHb.
  - constructor.
Qed.

Lemma nullable_spec r rest :
  nullable (at_end rest) r = true <-> matches ic r [] rest.
Proof.
  split; [apply nullable_matches|]. intros H. by apply (matches_nil_nullable r [] rest).
Qed.

Lemma cat'_spec a b s rest :
  matches ic (cat' a b) s rest <-> matches ic (Cat a b) s rest.
Proof.
  destruct a; simpl; try done.
  - split; [by intros ?%matches_void_inv|].
    intros (s1 & s2 & _ & H%matches_void_inv & _)%matches_cat_inv. done.
  - split.
    + intros H. by apply (M_cat ic Eps b [] s rest); [constructor|].
    + intros (s1 & s2 & -> & ->%matches_eps_inv & H)%matches_cat_inv. done.
Qed.

Lemma alt'_spec a b s rest :
  matches ic (alt' a b) s rest <-> matches ic (Alt a b) s rest.
Proof.
  assert (matches ic b s rest <-> matches ic (Alt Void b) s rest) as Hl.
  { split; [by apply M_alt_r|].
    intros [?%matches_void_inv|?]%matches_alt_inv; done. }
  assert (matches ic a s rest <-> matches ic (Alt a Void) s rest) as Hr.
  { split; [by apply M_alt_l|].
    intros [?|?%matches_void_inv]%matches_alt_inv; done. }
  destruct a; simpl; try done; destruct b; simpl; done.
Qed.

Lemma matches_star_cons_inv a c s rest :
  matches ic (Star a) (c :: s) rest ->
  exists s1 s2, s = s1 ++ s2 /\ matches ic a (c :: s1) (s2 ++ rest)
                /\ matches ic (Star a) s2 rest.
Proof.
  intros H. remember (Star a) as r eqn:Hr. remember (c :: s) as x eqn:Hx.
  revert s Hx.
  induction H as [ | | | | | | | a' s1 s2 rest H1 _ H2 IH2 ]; intros s0 Hx;
    try discriminate.
  injection Hr as ->. destruct s1 as [|c1 s1].
  - simpl in Hx. by apply IH2.
  - injection Hx as -> <-. by exists s1, s2.
Qed.

Lemma deriv_spec r : forall c s rest,
  matches ic (deriv ic (at_end (c :: s ++ rest)) c r) s rest
  <-> matches ic r (c :: s) rest.
Proof.
  induction r as [ | | | neg items | a IHa b IHb | a IHa b IHb | a IHa ];
    intros c s rest; cbn [deriv].
  - split; intros H; inversion H.
  - split; intros H; inversion H.
  - split; intros H; inversion H.
  - destruct (set_matches ic neg items c) eqn:Hc.
    + split.
      * intros ->%matches_eps_inv. by constructor.
      * intros (c' & [= <- ->] & _)%matches_set_inv. constructor.
    + split; [by intros ?%matches_void_inv|].
      intros (c' & [= <- ->] & Hc')%matches_set_inv. congruence.
  - rewrite alt'_spec. split.
    + intros [H|H]%matches_alt_inv.
      * apply cat'_spec in H.
        apply matches_cat_inv in H as (s1 & s2 & -> & Ha & Hb).
        apply (M_cat ic a b (c :: s1) s2 rest); [|done].
        rewrite <- app_assoc in Ha. by apply IHa.
      * destruct (nullable (at_end (c :: s ++ rest)) a) eqn:Hn;
          [|by apply matches_void_inv in H].
        apply (M_cat ic a b [] (c :: s) rest).
        -- by apply nullable_matches.
        -- by apply IHb.
    + intros (s1 & s2 & Heq & Ha & Hb)%matches_cat_inv.
      destruct s1 as [|c1 s1].
      * simpl in Heq. subst s2. apply M_alt_r.
        apply nullable_spec in Ha. cbn [app] in Ha. rewrite Ha. by apply IHb.
      * injection Heq as <- ->. apply M_alt_l, cat'_spec.
        apply (M_cat ic _ b s1 s2 rest); [|done].
        rewrite <- app_assoc. by apply IHa.
  - rewrite alt'_spec. split.
    + intros [H|H]%matches_alt_inv; [apply M_alt_l, IHa|apply M_alt_r, IHb]; done.
    + intros [H|H]%matches_alt_inv; [apply M_alt_l, IHa|apply M_alt_r, IHb]; done.
  - rewrite cat'_spec. split.
    + intros (s1 & s2 & -> & Ha & Hs)%matches_cat_inv.
      apply (M_star_cons ic a (c :: s1) s2 rest); [|done].
      rewrite <- app_assoc in Ha. by apply IHa.
    + intros (s1 & s2 & -> & Ha & Hs)%matches_star_cons_inv.
      apply (M_cat ic _ (Star a) s1 s2 rest); [|done].
      rewrite <- app_assoc. by apply IHa.
Qed.

(** [re_match] holds exactly when some prefix of the subject matches. *)
Theorem re_match_spec r s :
  re_match ic r s = true <->
  exists p q, s = p ++ q /\ matches ic r p q.
Proof.
  revert r. induction s as [|c s IH]; intros r; cbn [re_match].
  - rewrite orb_false_r. split.
    + intros H. exists [], []. split; [done|]. by apply nullable_matches.
    + intros (p & q & Heq & H). symmetry in Heq. apply app_eq_nil in Heq as [-> ->].
      by apply nullable_spec.
  - rewrite orb_true_iff, IH. split.
    + intros [Hn|(p & q & -> & H)].
      * exists [], (c :: s). split; [done|]. by apply nullable_matches.
      * exists (c :: p), q. split; [done|]. by apply deriv_spec.
    + intros (p & q & Heq & H). destruct p as [|c' p].
      * simpl in Heq. subst q. left. by apply nullable_spec.
      * injection Heq as <- ->. right. exists p, q. split; [done|].
        by apply deriv_spec.
Qed.

Lemma matches_star_set neg items s rest :
  Forall (fun c => set_matches ic neg items c = true) s ->
  matches ic (Star (Set_ neg items)) s rest.
Proof.
  induction 1 as [|c s Hc _ IH]; [constructor|].
  apply (M_star_cons ic _ [c] s rest); [by constructor|done].
Qed.

Lemma matches_star_set_inv neg items s rest :
  matches ic (Star (Set_ neg items)) s rest ->
  Forall (fun c => set_matches ic neg items c = true) s.
Proof.
  intros H. remember (Star (Set_ neg items)) as r eqn:Hr.
  induction H as [ | | | | | | | a s1 s2 rest H1 _ H2 IH2 ]; try discriminate.
  - constructor.
  - injection Hr as ->. apply matches_set_inv in H1 as (c & -> & Hc).
    constructor; [done|]. by apply IH2.
Qed.

End Matcher.

(** * Texts made of alphabetic words *)

Section AlphaWords.

Ltac ascii_cases c :=
  destruct c as [[] [] [] [] [] [] [] []]; vm_compute; try done.

Lemma alpha_not_space c : isalpha c = true -> isspace c = false.
Proof. ascii_cases c. Qed.

Lemma alpha_upper_ic c :
  isalpha c = true -> set_matches true false [CRange "A" "Z"]%char c = true.
Proof. ascii_cases c. Qed.

Lemma alpha_not_dollar c :
  isalpha c = true -> set_matches true false [CChar "$"%char] c = false.
Proof. ascii_cases c. Qed.

Lemma alpha_is_letter_class c :
  isalpha c = true ->
  set_matches true true [CRange "a" "z"; CRange "A" "Z"]%char c = false.
Proof. ascii_cases c. Qed.

Lemma alpha_is_word_class c :
  isalpha c = true -> set_matches true true [CWord; CSpace] c = false.
Proof. ascii_cases c. Qed.

Lemma digit_class_not_alpha c :
  set_matches true false [CDigit] c = true ->
  isalpha c = false /\ c <> " "%char.
Proof. ascii_cases c. Qed.

Lemma join_cons_cons (sep w w2 : str) (ws : list str) :
  join sep (w :: w2 :: ws) = w ++ sep ++ join sep (w2 :: ws).
Proof. done. Qed.

Lemma join_cons (sep w : str) (ws : list str) :
  join sep (w :: ws) = w ++ concat (map (fun w' => sep ++ w') ws).
Proof.
  revert w. induction ws as [|w2 ws IH]; intros w.
  - simpl. by rewrite app_nil_r.
  - rewrite join_cons_cons, IH. cbn [map concat]. by rewrite <- app_assoc.
Qed.

Lemma split_go_nonspace (w cur s : str) :
  Forall (fun c => isspace c = false) w ->
  split_go cur (w ++ s) = split_go (rev w ++ cur) s.
Proof.
  intros Hw. revert cur. induction Hw as [|c w Hc _ IH]; intros cur; [done|].
  cbn [app split_go]. rewrite Hc, IH. cbn [rev]. by rewrite <- app_assoc.
Qed.

Lemma split_join (ws : list str) :
  Forall (fun w => w <> [] /\ Forall (fun c => isspace c = false) w) ws ->
  split (join (py " ") ws) = ws.
Proof.
  unfold split. induction 1 as [|w ws [Hne Hw] Hws IH]; [done|].
  assert (flush (rev w ++ []) = [w]) as Hflush.
  { rewrite app_nil_r. unfold flush. destruct (rev w) eqn:Hrev.
    - exfalso. apply Hne. by rewrite <- (rev_involutive w), Hrev.
    - by rewrite <- Hrev, rev_involutive. }
  destruct ws as [|w2 ws].
  - change (join (py " ") [w]) with w. rewrite <- (app_nil_r w) at 1.
    rewrite split_go_nonspace by done. exact Hflush.
  - rewrite join_cons_cons, split_go_nonspace by done.
    change (py " " ++ join (py " ") (w2 :: ws))
      with (" "%char :: join (py " ") (w2 :: ws)).
    change (split_go (rev w ++ []) (" "%char :: join (py " ") (w2 :: ws)))
      with (flush (rev w ++ []) ++ split_go [] (join (py " ") (w2 :: ws))).
    by rewrite Hflush, IH.
Qed.

Lemma alpha_word_nonspace (w : str) :
  alpha_word w -> w <> [] /\ Forall (fun c => isspace c = false) w.
Proof.
  intros [Hlen Hall]. split.
  - intros ->. simpl in Hlen. lia.
  - eapply Forall_impl; [exact Hall|]. apply alpha_not_space.
Qed.

Lemma alpha_word_matches (w rest : str) :
  alpha_word w -> matches true (RepMin 2 Upper) w rest.
Proof.
  intros [Hlen Hall]. destruct w as [|c1 [|c2 w]]; simpl in Hlen; [lia|lia|].
  apply Forall_cons in Hall as [H1 Hall]. apply Forall_cons in Hall as [H2 Hall].
  unfold RepMin, Upper. cbn [Rep].
  apply (M_cat true _ _ [c1; c2] w rest).
  - apply (M_cat true _ _ [c1] [c2]); [constructor; by apply alpha_upper_ic|].
    apply (M_cat true _ _ [c2] []); [constructor; by apply alpha_upper_ic|].
    constructor.
  - apply matches_star_set. eapply Forall_impl; [exact Hall|]. apply alpha_upper_ic.
Qed.

Lemma alpha_words_tail_matches (ws : list str) (rest : str) :
  Forall alpha_word ws ->
  matches true (Star (Cat (Plus Space) (RepMin 2 Upper)))
    (concat (map (fun w => py " " ++ w) ws)) rest.
Proof.
  induction 1 as [|w ws Hw _ IH]; [constructor|].
  cbn [map concat]. apply M_star_cons; [|done].
  apply M_cat; [|by apply alpha_word_matches].
  unfold Plus, Space. apply (M_cat true _ _ [" "%char] []).
  - by constructor.
  - constructor.
Qed.

(** The third strong pattern, [[A-Z]{2,}(\s+[A-Z]{2,})*\s*$] under
    IGNORECASE, accepts every text of alphabetic words. *)
Lemma all_caps_pattern_matches (w : str) (ws : list str) :
  Forall alpha_word (w :: ws) ->
  re_match true
    (Seq [RepMin 2 Upper; Star (Cat (Plus Space) (RepMin 2 Upper)); Star Space; Eos])
    (join (py " ") (w :: ws)) = true.
Proof.
  intros [Hw Hws]%Forall_cons. apply re_match_spec.
  exists (join (py " ") (w :: ws)), []. split; [by rewrite app_nil_r|].
  rewrite join_cons. unfold Seq. cbn [foldr].
  apply M_cat; [by apply alpha_word_matches|].
  rewrite <- (app_nil_r (concat _)).
  apply M_cat; [by apply alpha_words_tail_matches|].
  by apply nullable_matches.
Qed.

(** What the strict patterns need and such a text lacks. *)
Lemma alpha_text_chars (ws : list str) :
  Forall alpha_word ws ->
  Forall (fun c => isalpha c = true \/ c = " "%char) (join (py " ") ws).
Proof.
  intros Hws. destruct ws as [|w ws]; [constructor|].
  rewrite join_cons. apply Forall_cons in Hws as [[_ Hw] Hws].
  apply Forall_app. split.
  - eapply Forall_impl; [exact Hw|]. by left.
  - induction Hws as [|w2 ws [_ Hw2] _ IH]; [constructor|].
    cbn [map concat]. apply Forall_app. split; [|done].
    constructor; [by right|]. eapply Forall_impl; [exact Hw2|]. by left.
Qed.

Lemma alpha_text_head (w : str) (ws : list str) :
  Forall alpha_word (w :: ws) ->
  exists c s, join (py " ") (w :: ws) = c :: s /\ isalpha c = true.
Proof.
  intros [[Hlen Hw] _]%Forall_cons. rewrite join_cons.
  destruct w as [|c w]; [simpl in Hlen; lia|].
  apply Forall_cons in Hw as [Hc _]. by exists c, (w ++ concat (map (fun w' => py " " ++ w') ws)).
Qed.

Lemma money_pattern_rejects (c : ascii) (s : str) :
  isalpha c = true ->
  re_match true
    (Seq [Chr "$"; Plus (Set_ false [CDigit; CChar ","%char]);
          Opt (Cat (Chr ".") (Rep 2 Digit)); Star Space; Eos]) (c :: s) = false.
Proof.
  intros Hc. apply not_true_is_false. intros (p & q & Heq & H)%re_match_spec.
  unfold Seq in H. cbn [foldr] in H.
  apply matches_cat_inv in H as (s1 & s2 & -> & H1 & _).
  apply matches_set_inv in H1 as (c' & -> & Hc').
  injection Heq as <- _. by rewrite alpha_not_dollar in Hc'.
Qed.

Lemma page_pattern_rejects (s : str) :
  Forall (fun c => isalpha c = true \/ c = " "%char) s ->
  re_match true (Seq [Lit "Page"; Plus Space; Plus Digit; Star Space; Eos]) s = false.
Proof.
  intros Hs. apply not_true_is_false. intros (p & q & -> & H)%re_match_spec.
  unfold Seq in H. cbn [foldr] in H.
  apply matches_cat_inv in H as (s1 & s2 & -> & _ & H).
  apply matches_cat_inv in H as (s3 & s4 & -> & _ & H).
  apply matches_cat_inv in H as (s5 & s6 & -> & H & _).
  apply matches_cat_inv in H as (s7 & s8 & -> & H & _).
  apply matches_set_inv in H as (d & -> & Hd).
  apply digit_class_not_alpha in Hd as [Hd1 Hd2].
  rewrite !Forall_app in Hs. destruct Hs as [[_ [_ [[Hd _] _]]] _].
  apply Forall_cons in Hd as [[Hd|Hd] _]; congruence.
Qed.

Lemma negated_star_pattern_rejects (items : list citem) (c : ascii) (s : str) :
  set_matches true true items c = false ->
  c <> "010"%char ->
  re_match true (Seq [Star (Set_ true items); Eos]) (c :: s) = false.
Proof.
  intros Hc Hnl. apply not_true_is_false. intros (p & q & Heq & H)%re_match_spec.
  unfold Seq in H. cbn [foldr] in H.
  apply matches_cat_inv in H as (s1 & s2 & -> & H1 & H2).
  apply matches_star_set_inv in H1.
  apply matches_cat_inv in H2 as (s3 & s4 & -> & [-> Hend]%matches_eos_inv & ->%matches_eps_inv).
  destruct s1 as [|c1 s1].
  - simpl in Heq. subst q. simpl in Hend. destruct s; [|done].
    by apply bool_decide_eq_true in Hend.
  - injection Heq as <- _. apply Forall_cons in H1 as [Hc1 _]. congruence.
Qed.

Lemma alpha_not_newline c : isalpha c = true -> c <> "010"%char.
Proof. intros Hc ->. done. Qed.

Lemma strict_patterns_reject_alpha_text (w : str) (ws : list str) :
  Forall alpha_word (w :: ws) ->
  any_match strict_non_heading_patterns (join (py " ") (w :: ws)) = false.
Proof.
  intros Hws. pose proof (alpha_text_chars _ Hws) as Hchars.
  destruct (alpha_text_head w ws Hws) as (c & s & Heq & Hc).
  unfold any_match, strict_non_heading_patterns. cbn [existsb].
  rewrite page_pattern_rejects by done. rewrite Heq.
  rewrite money_pattern_rejects by done.
  rewrite !negated_star_pattern_rejects;
    [done | by apply alpha_is_word_class | by apply alpha_not_newline
          | by apply alpha_is_letter_class | by apply alpha_not_newline].
Qed.

Lemma strong_patterns_accept_alpha_text (w : str) (ws : list str) :
  Forall alpha_word (w :: ws) ->
  any_match strong_heading_patterns (join (py " ") (w :: ws)) = true.
Proof.
  intros Hws. unfold any_match, strong_heading_patterns. cbn [existsb].
  rewrite (all_caps_pattern_matches w ws Hws).
  by rewrite orb_true_l, !orb_true_r.
Qed.

Lemma clean_text_cases (text : str) :
  clean_text text = [] \/ clean_text text = normalize_ws text.
Proof. unfold clean_text. repeat case_match; auto. Qed.

Lemma clean_text_nil : clean_text [] = [].
Proof. done. Qed.

End AlphaWords.

(** C9. A text whose cleaned form consists of words of at least two
    letters separated by single spaces, with at most 25 words and at most
    200 characters, is classified as a heading whatever the font size, the
    boldness, the body size and the heading sizes are; lowercase text
    included. *)
Theorem alphabetic_words_are_headings
    (text : str) (font_size : Z) (is_bold : bool) (body_size : Z)
    (heading_sizes : list Z) (ws : list str) :
  ws <> [] ->
  Forall alpha_word ws ->
  clean_text text = join (py " ") ws ->
  (length ws <= 25)%nat ->
  (length (join (py " ") ws) <= 200)%nat ->
  is_likely_heading text font_size is_bold body_size heading_sizes = true.
Proof.
  intros Hne Hws Hclean Hwords Hlen.
  destruct ws as [|w ws]; [done|]. clear Hne.
  destruct (alpha_text_head w ws Hws) as (c & s & Heq & Hc).
  assert (text <> []) as Htext.
  { intros ->. rewrite clean_text_nil in Hclean. by rewrite Heq in Hclean. }
  assert (2 <= length (strip text))%nat as Hstrip.
  { etrans; [|apply nonspace_length]. rewrite nonspace_strip.
    destruct (clean_text_cases text) as [Hnil|Hnorm].
    { rewrite Hnil in Hclean. by rewrite Heq in Hclean. }
    rewrite <- nonspace_normalize_ws, <- Hnorm, Hclean, join_cons, nonspace_app.
    apply Forall_cons in Hws as [Hw _].
    destruct (alpha_word_nonspace w Hw) as [_ Hns].
    assert (nonspace w = w) as ->.
    { clear -Hns. induction Hns as [|x w Hx _ IH]; [done|].
      by rewrite nonspace_cons_other, IH. }
    rewrite length_app. destruct Hw as [Hw _]. lia. }
  unfold is_likely_heading.
  apply is_nil_false in Htext. rewrite Htext.
  replace (length (strip text) <? 2)%nat with false
    by (symmetry; apply Nat.ltb_ge; lia).
  cbn [orb]. cbv zeta. rewrite Hclean.
  rewrite split_join by (eapply Forall_impl; [exact Hws|]; apply alpha_word_nonspace).
  replace (is_nil (join (py " ") (w :: ws))) with false by (by rewrite Heq).
  replace (25 <? length (w :: ws))%nat with false
    by (symmetry; apply Nat.ltb_ge; lia).
  replace (200 <? length (join (py " ") (w :: ws)))%nat with false
    by (symmetry; apply Nat.ltb_ge; lia).
  rewrite strict_patterns_reject_alpha_text by done.
  by rewrite strong_patterns_accept_alpha_text.
Qed.

Lemma alphabetic_words_are_headings_witness :
  is_likely_heading (py "overview notes") 10 false 10 [] = true.
Proof.
  apply (alphabetic_words_are_headings _ _ _ _ _ [py "overview"; py "notes"]).
  - done.
  - repeat constructor; vm_compute; lia.
  - reflexivity.
  - simpl. lia.
  - vm_compute. lia.
Defined.

(** * Scenarios of the specification, evaluated *)

Section Scenarios.

(** A run of seven or more equal characters empties the text. *)
Example clean_text_garbage_run :
  clean_text (py "AAAAAAAAAAAAAAAAAAAA pricing $5,000.00") = [].
Proof. reflexivity. Qed.

Example clean_text_normalizes :
  clean_text (py "  Annual   Report ") = py "Annual Report".
Proof. reflexivity. Qed.

(** The strict patterns win over any font advantage. *)
Example page_number_not_heading :
  is_likely_heading (py "Page 12") 30 true 10 [] = false.
Proof. reflexivity. Qed.

Example money_amount_not_heading :
  is_likely_heading (py "$5,000.00") 30 true 10 [] = false.
Proof. reflexivity. Qed.

(** The loose patterns apply to bold text of body size. *)
Example bold_date_not_heading :
  is_likely_heading (py "March 3, 2020") 10 true 10 [] = false.
Proof. reflexivity. Qed.

Example bold_sentence_is_heading :
  is_likely_heading (py "This is a plain sentence, with commas.") 10 true 10 [] = true.
Proof. reflexivity. Qed.

Example plain_sentence_not_heading :
  is_likely_heading (py "this is a plain sentence, with commas.") 10 false 10 [] = false.
Proof. reflexivity. Qed.

(** A table of contents with a row of depth 4. *)
Example toc_scenario :
  extract_outline_from_toc toc_doc
  = Some [Entry H1 (py "Intro") 1; Entry H2 (py "Details") 2].
Proof. reflexivity. Qed.

(** Two first-page lines of the largest size, and the headings found by
    size. *)
Example report_scenario :
  process_single_pdf report_file
  = Result (py "./input/report.pdf") Success
      (Output (py "Annual Report")
         [Entry H1 (py "Annual") 1; Entry H1 (py "Report") 1]).
Proof. vm_compute. reflexivity. Qed.

Example overview_scenario :
  extract_outline_heuristically overview_doc
  = [Entry H3 (py "1.1 Overview") 3].
Proof. vm_compute. reflexivity. Qed.

End Scenarios.

(** * Normalisation as splitting and joining *)

Section Normalisation.
Implicit Types (s t cur ws : str) (c : ascii).

Lemma lstrip_split_off s :
  exists ws, s = ws ++ lstrip s /\ Forall (fun c => isspace c = true) ws.
Proof.
  induction s as [|c s (ws & Heq & Hws)]; [by exists []|].
  simpl. destruct (isspace c) eqn:Hc.
  - exists (c :: ws). split; [by rewrite Heq at 1|]. by constructor.
  - by exists [].
Qed.

Lemma rstrip_split_off s :
  exists ws, s = rstrip s ++ ws /\ Forall (fun c => isspace c = true) ws.
Proof.
  destruct (lstrip_split_off (rev s)) as (ws & Heq & Hws).
  exists (rev ws). split.
  - unfold rstrip. rewrite <- rev_app_distr, <- Heq. by rewrite rev_involutive.
  - apply Forall_forall. intros c Hc%list_elem_of_In%in_rev%list_elem_of_In.
    by apply (proj1 (Forall_forall _ _) Hws).
Qed.

Lemma rstrip_last s :
  rstrip s = [] \/ exists r c, rstrip s = r ++ [c] /\ isspace c = false.
Proof.
  unfold rstrip. destruct (lstrip_head (rev s)) as [->|(c & r & -> & Hc)].
  - by left.
  - right. exists (rev r), c. by split.
Qed.

Lemma lstrip_of_nonspace_head c s : isspace c = false -> lstrip (c :: s) = c :: s.
Proof. intros Hc. simpl. by rewrite Hc. Qed.

Lemma rstrip_keeps_head c s :
  isspace c = false -> exists s', rstrip (c :: s) = c :: s'.
Proof.
  intros Hc. destruct (rstrip_split_off (c :: s)) as (ws & Heq & Hws).
  destruct (rstrip (c :: s)) as [|c' r] eqn:Hr.
  - simpl in Heq. subst ws. apply Forall_cons in Hws as [Hc' _]. congruence.
  - injection Heq as -> _. by exists r.
Qed.

(** The stripped string neither starts nor ends with whitespace. *)
Lemma strip_ends s :
  (forall c s', strip s = c :: s' -> isspace c = false)
  /\ (forall r c, strip s = r ++ [c] -> isspace c = false).
Proof.
  unfold strip. split.
  - intros c s' Heq. destruct (lstrip_head s) as [Hnil|(c0 & r & Hl & Hc0)].
    + rewrite Hnil in Heq. done.
    + rewrite Hl in Heq. destruct (rstrip_keeps_head c0 r Hc0) as [s'' Hs''].
      rewrite Hs'' in Heq. by injection Heq as <- _.
  - intros r c Heq. destruct (rstrip_last (lstrip s)) as [Hnil|(r' & c' & Hr & Hc')].
    + rewrite Hnil in Heq. by destruct r.
    + rewrite Hr in Heq. apply app_inj_tail in Heq as [_ <-]. done.
Qed.

Lemma split_go_spaces cur ws :
  Forall (fun c => isspace c = true) ws ->
  split_go cur ws = flush cur.
Proof.
  intros Hws. revert cur. induction Hws as [|c ws Hc _ IH]; intros cur; [done|].
  simpl. rewrite Hc, IH. simpl. by rewrite app_nil_r.
Qed.

Lemma split_go_app_spaces cur s ws :
  Forall (fun c => isspace c = true) ws ->
  split_go cur (s ++ ws) = split_go cur s.
Proof.
  intros Hws. revert cur. induction s as [|c s IH]; intros cur.
  - simpl. by rewrite split_go_spaces.
  - simpl. destruct (isspace c); by rewrite IH.
Qed.

Lemma split_spaces_app ws s :
  Forall (fun c => isspace c = true) ws -> split (ws ++ s) = split s.
Proof.
  unfold split. induction 1 as [|c ws Hc _ IH]; [done|].
  simpl. by rewrite Hc.
Qed.

Lemma split_strip s : split (strip s) = split s.
Proof.
  unfold strip.
  destruct (rstrip_split_off (lstrip s)) as (ws & Heq & Hws).
  destruct (lstrip_split_off s) as (ws' & Heq' & Hws').
  rewrite Heq' at 2. rewrite split_spaces_app by done.
  rewrite Heq at 2. unfold split. by rewrite split_go_app_spaces.
Qed.

Lemma split_go_collapse b cur t :
  (b = true -> cur = []) ->
  split_go cur (collapse_go b t) = split_go cur t.
Proof.
  revert b cur. induction t as [|c t IH]; intros b cur Hb; [done|].
  simpl. destruct (isspace c) eqn:Hc.
  - destruct b.
    + rewrite (Hb eq_refl). simpl. by apply IH.
    + simpl. change (isspace " ") with true. cbn iota. by rewrite IH.
  - simpl. rewrite Hc. by apply IH.
Qed.

Lemma split_normalize_ws t : split (normalize_ws t) = split t.
Proof.
  unfold normalize_ws, collapse_ws. rewrite split_strip. unfold split.
  by apply split_go_collapse.
Qed.

Lemma collapsed_collapse_go b t : collapsed_go b (collapse_go b t) = true.
Proof.
  revert b. induction t as [|c t IH]; intros b; [done|].
  simpl. destruct (isspace c) eqn:Hc.
  - destruct b; [apply IH|]. simpl. change (isspace " ") with true. cbn iota.
    by rewrite IH.
  - simpl. by rewrite Hc.
Qed.

Lemma collapsed_go_weaken b s : collapsed_go b s = true -> collapsed_go false s = true.
Proof.
  destruct s as [|c s]; [done|]. simpl. destruct (isspace c); [|done].
  rewrite !andb_true_iff. intros [[? _] ?]. done.
Qed.

Lemma collapsed_go_app_l b s1 s2 :
  collapsed_go b (s1 ++ s2) = true -> collapsed_go b s1 = true.
Proof.
  revert b. induction s1 as [|c s1 IH]; intros b; [done|].
  simpl. destruct (isspace c); [|apply IH].
  rewrite !andb_true_iff. intros [? ?]. split; [done|]. by apply IH.
Qed.

Lemma collapsed_go_app_r b s1 s2 :
  collapsed_go b (s1 ++ s2) = true -> collapsed_go false s2 = true.
Proof.
  revert b. induction s1 as [|c s1 IH]; intros b; [apply collapsed_go_weaken|].
  simpl. destruct (isspace c); [|apply IH].
  rewrite !andb_true_iff. intros [_ ?]. by apply (IH true).
Qed.

Lemma collapsed_normalize_ws t : collapsed_go false (normalize_ws t) = true.
Proof.
  unfold normalize_ws, collapse_ws, strip.
  pose proof (collapsed_collapse_go false t) as Hc.
  destruct (lstrip_split_off (collapse_go false t)) as (ws & Heq & _).
  rewrite Heq in Hc. apply collapsed_go_app_r in Hc.
  destruct (rstrip_split_off (lstrip (collapse_go false t))) as (ws' & Heq' & _).
  rewrite Heq' in Hc. by apply collapsed_go_app_l in Hc.
Qed.

Lemma collapsed_go_fixed b s : collapsed_go b s = true -> collapse_go b s = s.
Proof.
  revert b. induction s as [|c s IH]; intros b; [done|].
  simpl. destruct (isspace c).
  - rewrite !andb_true_iff. intros [[->%bool_decide_eq_true Hb] Hs].
    destruct b; [done|]. by rewrite IH.
  - intros Hs. by rewrite IH.
Qed.

Lemma split_go_cons cur c s :
  split_go cur (c :: s)
  = if isspace c then flush cur ++ split_go [] s else split_go (c :: cur) s.
Proof. done. Qed.

(** A collapsed string that does not end with a space, read after the
    unfinished word [cur], is its words joined by single spaces. *)
Lemma join_split_go s : forall cur,
  collapsed_go false s = true ->
  (forall r c, s = r ++ [c] -> isspace c = false) ->
  (cur = [] -> forall c s', s = c :: s' -> isspace c = false) ->
  rev cur ++ s = join (py " ") (split_go cur s).
Proof.
  induction s as [|c s IH]; intros cur Hcol Hlast Hhead.
  - simpl. rewrite app_nil_r. unfold flush. by destruct cur.
  - assert (forall r x, s = r ++ [x] -> isspace x = false) as Hlast'.
    { intros r x ->. by apply (Hlast (c :: r) x). }
    rewrite split_go_cons. cbn [collapsed_go] in Hcol.
    destruct (isspace c) eqn:Hc.
    + apply andb_true_iff in Hcol as [[Hsp%bool_decide_eq_true _]%andb_true_iff Hcol].
      subst c.
      destruct cur as [|x cur].
      { specialize (Hhead eq_refl _ _ eq_refl). done. }
      destruct s as [|c2 s].
      { specialize (Hlast [] " "%char eq_refl). done. }
      assert (isspace c2 = false) as Hc2.
      { cbn [collapsed_go] in Hcol. destruct (isspace c2); [|done].
        by rewrite andb_false_r in Hcol. }
      assert (c2 :: s = join (py " ") (split_go [] (c2 :: s))) as Hrest.
      { apply (IH []); [by apply collapsed_go_weaken in Hcol|done|].
        intros _ y s' [= <- _]. done. }
      unfold flush.
      destruct (split_go [] (c2 :: s)) as [|p ps]; [done|].
      cbn [app]. rewrite join_cons_cons, <- Hrest. done.
    + rewrite <- (IH (c :: cur)); [|done|done|done].
      cbn [rev]. by rewrite <- app_assoc.
Qed.

Lemma normalize_ws_join_split t : normalize_ws t = join (py " ") (split t).
Proof.
  rewrite <- split_normalize_ws. unfold split.
  destruct (strip_ends (collapse_ws t)) as [Hhead Hlast].
  apply (join_split_go (normalize_ws t) []).
  - apply collapsed_normalize_ws.
  - exact Hlast.
  - intros _. exact Hhead.
Qed.

Lemma split_go_words s : forall cur,
  Forall (fun c => isspace c = false) cur ->
  Forall (fun w => w <> [] /\ Forall (fun c => isspace c = false) w) (split_go cur s).
Proof.
  assert (forall cur, Forall (fun c => isspace c = false) cur ->
            Forall (fun w => w <> [] /\ Forall (fun c => isspace c = false) w) (flush cur))
    as Hflush.
  { intros [|x cur] Hcur; [constructor|]. unfold flush. constructor; [|constructor].
    split.
    - intros Hnil. apply (f_equal (@length ascii)) in Hnil.
      rewrite length_rev in Hnil. done.
    - apply Forall_forall. intros c Hc%list_elem_of_In%in_rev%list_elem_of_In.
      by apply (proj1 (Forall_forall _ _) Hcur). }
  induction s as [|c s IH]; intros cur Hcur; simpl; [by apply Hflush|].
  destruct (isspace c) eqn:Hc.
  - apply Forall_app. split; [by apply Hflush|]. by apply IH.
  - apply IH. by constructor.
Qed.

Lemma split_words t :
  Forall (fun w => w <> [] /\ Forall (fun c => isspace c = false) w) (split t).
Proof. by apply split_go_words. Qed.

Lemma normalize_ws_idempotent t : normalize_ws (normalize_ws t) = normalize_ws t.
Proof.
  rewrite (normalize_ws_join_split (normalize_ws t)), split_normalize_ws.
  symmetry. apply normalize_ws_join_split.
Qed.

End Normalisation.

(** * What clean_text accepts *)

Section CleanText.
Implicit Types (s t : str) (c : ascii).

Lemma run_length_spec c s k :
  (k <= run_length c s)%nat <-> exists after, s = replicate k c ++ after.
Proof.
  revert s. induction k as [|k IH]; intros s.
  - split; [intros _; by exists s|intros _; lia].
  - destruct s as [|c' s]; simpl.
    + split; [lia|]. intros (after & Heq). done.
    + destruct (bool_decide (c' = c)) eqn:Hc.
      * apply bool_decide_eq_true in Hc as ->. rewrite <- Nat.succ_le_mono, IH.
        split; intros (after & Heq); exists after; [by rewrite Heq|by injection Heq].
      * apply bool_decide_eq_false in Hc. split; [lia|].
        intros (after & [= -> _]). done.
Qed.

Lemma has_char_run_spec n s :
  has_char_run (S n) s = true <->
  exists c before after, c <> "010"%char /\ s = before ++ replicate (S n) c ++ after.
Proof.
  induction s as [|c s IH]; simpl.
  - split; [done|]. intros (c & before & after & _ & Heq). by destruct before.
  - rewrite orb_true_iff, andb_true_iff, negb_true_iff, bool_decide_eq_false,
      Nat.leb_le, run_length_spec, IH.
    split.
    + intros [[Hnl (after & ->)]|(c' & before & after & Hnl & ->)].
      * by exists c, [], after.
      * by exists c', (c :: before), after.
    + intros (c' & before & after & Hnl & Heq). destruct before as [|x before].
      * left. injection Heq as -> ->. split; [done|]. by exists after.
      * right. injection Heq as -> ->. by exists c', before, after.
Qed.

Lemma collapsed_no_newline b s : collapsed_go b s = true -> "010"%char ∉ s.
Proof.
  revert b. induction s as [|c s IH]; intros b Hcol; [apply not_elem_of_nil|].
  simpl in Hcol. intros [<-|Hin]%elem_of_cons.
  - simpl in Hcol. done.
  - destruct (isspace c).
    + apply andb_true_iff in Hcol as [_ Hcol]. by apply (IH true).
    + by apply (IH false).
Qed.

Lemma has_char_run_normalized t :
  has_char_run 7 (normalize_ws t) = true <-> has_equal_run 7 (normalize_ws t).
Proof.
  rewrite has_char_run_spec. unfold has_equal_run. split.
  - intros (c & before & after & _ & Heq). by exists c, before, after.
  - intros (c & before & after & Heq). exists c, before, after. split; [|done].
    intros ->. apply (collapsed_no_newline false (normalize_ws t)).
    + apply collapsed_normalize_ws.
    + rewrite Heq. apply elem_of_app. right. apply list_elem_of_here.
Qed.

Lemma normalize_ws_nil : normalize_ws [] = [].
Proof. done. Qed.

(** [clean_text] as a function of the normalized text, the repetition check
    being without effect. *)
Lemma clean_text_unfold t :
  clean_text t =
  if has_char_run 7 (normalize_ws t) then []
  else if (3 * length (normalize_ws t)
           <? 5 * count_class true special_items (normalize_ws t))%nat then []
  else normalize_ws t.
Proof.
  unfold clean_text. destruct t as [|c t]; [done|]. cbn [is_nil]. cbv zeta.
  rewrite repetition_check_never_fires, !andb_false_r.
  destruct (has_char_run 7 _); [done|].
  destruct (is_nil (normalize_ws (c :: t))) eqn:Hnil; [|done].
  apply is_nil_true in Hnil. by rewrite Hnil.
Qed.

Lemma clean_text_result t :
  clean_text t = [] \/
  (clean_text t = normalize_ws t
   /\ has_char_run 7 (normalize_ws t) = false
   /\ (5 * count_class true special_items (normalize_ws t)
       <= 3 * length (normalize_ws t))%nat).
Proof.
  rewrite clean_text_unfold.
  destruct (has_char_run 7 _); [by left|].
  destruct (_ <? _)%nat eqn:Hratio; [by left|].
  right. apply Nat.ltb_ge in Hratio. done.
Qed.

Lemma clean_text_fixed t : clean_text (clean_text t) = clean_text t.
Proof.
  destruct (clean_text_result t) as [->|(Heq & Hrun & Hratio)]; [done|].
  rewrite Heq, clean_text_unfold, normalize_ws_idempotent, Hrun.
  apply Nat.ltb_ge in Hratio. by rewrite Hratio.
Qed.

End CleanText.

(** X1. A text [clean_text] does not reject comes back as its
    whitespace-separated words joined by single spaces, so it has the
    words of the input, no whitespace at either end, and no whitespace
    other than single spaces. *)
Theorem clean_text_joins_words (text : str) :
  clean_text text = []
  \/ (clean_text text = join (py " ") (split text)
      /\ split (clean_text text) = split text).
Proof.
  destruct (clean_text_result text) as [Hnil|(Heq & _)]; [by left|].
  right. rewrite Heq. split.
  - apply normalize_ws_join_split.
  - apply split_normalize_ws.
Qed.

(** X2. Cleaning is idempotent: cleaning a cleaned text returns it
    unchanged, so the second cleaning inside [is_likely_heading] neither
    alters nor rejects what pass 2 hands over. *)
Theorem clean_text_idempotent (text : str) :
  clean_text (clean_text text) = clean_text text.
Proof. apply clean_text_fixed. Qed.

(** X3. [clean_text] rejects exactly the texts whose normalized form is
    empty, has seven equal consecutive characters, or has more than 60% of
    characters outside the allowed class; every other text comes back
    normalized. Word repetition alone never rejects a text. *)
Theorem clean_text_rejects_exactly (text : str) :
  (clean_text text = [] <->
     normalize_ws text = []
     \/ has_equal_run 7 (normalize_ws text)
     \/ (3 * length (normalize_ws text)
         < 5 * count_class true special_items (normalize_ws text))%nat)
  /\ (clean_text text <> [] -> clean_text text = normalize_ws text).
Proof.
  split.
  - rewrite <- has_char_run_normalized, clean_text_unfold.
    destruct (has_char_run 7 (normalize_ws text)) eqn:Hrun.
    { split; [by right; left|done]. }
    destruct (_ <? _)%nat eqn:Hratio.
    { apply Nat.ltb_lt in Hratio. split; [by right; right|done]. }
    apply Nat.ltb_ge in Hratio. split; [by left|].
    intros [Hnil|[Hr|Hlt]]; [done|done|lia].
  - intros Hne. by destruct (clean_text_result text) as [Hnil|(Heq & _)].
Qed.

(** * The gates of is_likely_heading *)

Section Gates.
Implicit Types (s t : str) (c : ascii).








(** What a text classified as a heading has passed. *)
Lemma is_likely_heading_gates t font_size is_bold body_size heading_sizes :
  is_likely_heading t font_size is_bold body_size heading_sizes = true ->
  clean_text t <> []
  /\ (length (split (clean_text t)) <= 25)%nat
  /\ (length (clean_text t) <= 200)%nat
  /\ any_match strict_non_heading_patterns (clean_text t) = false.
Proof.
  unfold is_likely_heading.
  destruct (is_nil t || (length (strip t) <? 2)%nat); [done|]. cbv zeta.
  destruct (is_nil (clean_text t)) eqn:Hnil; [done|].
  destruct (25 <? _)%nat eqn:Hwords; [done|].
  destruct (200 <? _)%nat eqn:Hlen; [done|].
  destruct (any_match strict_non_heading_patterns _); [done|].
  intros _. apply is_nil_false in Hnil.
  apply Nat.ltb_ge in Hwords, Hlen. done.
Qed.


End Gates.



(** X5. A larger font, a smaller body size and boldness never turn a
    heading into a non-heading: the classification is monotone in the font
    signals. *)
Theorem heading_monotone_in_font
    (text : str) (font_size font_size' : Z) (is_bold is_bold' : bool)
    (body_size body_size' : Z) (heading_sizes heading_sizes' : list Z) :
  (font_size <= font_size')%Z ->
  (body_size' <= body_size)%Z ->
  (is_bold = true -> is_bold' = true) ->
  is_likely_heading text font_size is_bold body_size heading_sizes = true ->
  is_likely_heading text font_size' is_bold' body_size' heading_sizes' = true.
Proof.
  intros Hfont Hbody Hbold. unfold is_likely_heading.
  destruct (is_nil text || (length (strip text) <? 2)%nat); [done|]. cbv zeta.
  destruct (is_nil (clean_text text)); [done|].
  destruct (25 <? _)%nat; [done|].
  destruct (200 <? _)%nat; [done|].
  destruct (any_match strict_non_heading_patterns _); [done|].
  destruct (any_match strong_heading_patterns _); [done|].
  generalize (first_isupper (clean_text text)) (istitle (clean_text text))
    (any_match loose_non_heading_patterns (clean_text text))
    (length (split (clean_text text)) <=? 8)%nat
    (re_search false multiple_dots (clean_text text)).
  intros upper titled loose few dots.
  destruct (Z.ltb_spec (6 * body_size) (5 * font_size));
    destruct (Z.ltb_spec (6 * body_size') (5 * font_size')); try lia; try done;
  destruct (Z.ltb_spec (21 * body_size) (20 * font_size));
    destruct (Z.ltb_spec (21 * body_size') (20 * font_size')); try lia;
  destruct (Z.leb_spec body_size font_size);
    destruct (Z.leb_spec body_size' font_size'); try lia;
  destruct is_bold; try (rewrite Hbold by done); cbn [andb orb]; try done;
  destruct is_bold', upper, titled, loose, few, dots; cbn [andb orb negb]; done.
Qed.

Lemma heading_monotone_in_font_witness :
  is_likely_heading (py "Results, 2023 edition") 14 true 10 [] = true.
Proof.
  apply (heading_monotone_in_font _ 11 14 false true 10 10 [14%Z] []).
  - lia.
  - lia.
  - done.
  - reflexivity.
Defined.

(** * Pages and levels of the heuristic outline *)

Section OutlinePages.

Lemma text_block_of_page i b tb :
  text_block_of i b = Some tb -> tb_page tb = (Z.of_nat i + 1)%Z.
Proof.
  unfold text_block_of. destruct (block_lines b); [done|]. cbv zeta.
  destruct (map _ (kept_spans b)); [done|]. by intros [= <-].
Qed.

Lemma page_text_blocks_page i p tb :
  tb ∈ page_text_blocks i p -> tb_page tb = (Z.of_nat i + 1)%Z.
Proof.
  unfold page_text_blocks. destruct (get_text_blocks p) as [e|blocks].
  - by intros ?%not_elem_of_nil.
  - intros (b & _ & Hb)%list_elem_of_omap. by apply (text_block_of_page i b).
Qed.

Lemma constant_page_sorted (l : list text_block) (n : Z) :
  (forall tb, tb ∈ l -> tb_page tb = n) ->
  StronglySorted Z.le (map tb_page l).
Proof.
  induction l as [|tb l IH]; intros Hl; [constructor|].
  cbn [map]. constructor.
  - apply IH. intros tb' Htb'. by apply Hl, list_elem_of_further.
  - apply Forall_forall. intros x (tb' & -> & Htb')%list_elem_of_fmap.
    rewrite (Hl tb) by apply list_elem_of_here.
    rewrite (Hl tb') by (by apply list_elem_of_further). done.
Qed.

(** The blocks of the pages numbered from [k + 1] on. *)
Lemma blocks_pages_from (pages : list page) : forall k : nat,
  StronglySorted Z.le
    (map tb_page (concat (imap (fun i => page_text_blocks (k + i)) pages)))
  /\ forall tb, tb ∈ concat (imap (fun i => page_text_blocks (k + i)) pages) ->
       (Z.of_nat k + 1 <= tb_page tb <= Z.of_nat k + Z.of_nat (length pages))%Z.
Proof.
  induction pages as [|p pages IH]; intros k.
  - split; [constructor|]. by intros tb ?%not_elem_of_nil.
  - rewrite imap_cons. cbn [concat length].
    assert (imap ((fun i => page_text_blocks (k + i)) ∘ S) pages
            = imap (fun i => page_text_blocks (S k + i)) pages) as ->.
    { apply imap_ext. intros i x _. simpl. f_equal. lia. }
    destruct (IH (S k)) as [Hsorted Hbounds]. split.
    + rewrite map_app. apply StronglySorted_app. split; [|split; [|done]].
      * intros x1 x2 (tb1 & -> & H1)%list_elem_of_fmap (tb2 & -> & H2)%list_elem_of_fmap.
        apply page_text_blocks_page in H1. apply Hbounds in H2. lia.
      * apply (constant_page_sorted _ (Z.of_nat (k + 0) + 1)%Z).
        intros tb. apply page_text_blocks_page.
    + intros tb [H1|H2]%elem_of_app.
      * apply page_text_blocks_page in H1. lia.
      * apply Hbounds in H2. lia.
Qed.

Lemma all_text_blocks_pages (doc : document) :
  StronglySorted Z.le (map tb_page (all_text_blocks doc))
  /\ forall tb, tb ∈ all_text_blocks doc ->
       (1 <= tb_page tb <= Z.of_nat (page_count doc))%Z.
Proof.
  destruct (blocks_pages_from (pages doc) 0) as [Hsorted Hbounds].
  unfold all_text_blocks, page_count. split; [done|].
  intros tb Htb. apply Hbounds in Htb. lia.
Qed.

Lemma sublist_map {A B} (f : A -> B) (l1 l2 : list A) :
  sublist l1 l2 -> sublist (map f l1) (map f l2).
Proof. induction 1; simpl; by constructor. Qed.

Lemma StronglySorted_sublist {A} (R : relation A) (l1 l2 : list A) :
  sublist l1 l2 -> StronglySorted R l2 -> StronglySorted R l1.
Proof.
  induction 1 as [|x l1 l2 Hsub IH|x l1 l2 Hsub IH]; intros Hs; [done| |].
  - apply StronglySorted_inv in Hs as [Hs Hall]. constructor; [by apply IH|].
    apply Forall_forall. intros y Hy. rewrite Forall_forall in Hall.
    apply Hall. by apply (elem_of_sublist l1 l2).
  - apply StronglySorted_inv in Hs as [Hs _]. by apply IH.
Qed.

Lemma candidate_pages_sublist body hs stl (blocks : list text_block) :
  sublist (map entry_page (omap (heading_entry body hs stl) blocks))
          (map tb_page blocks).
Proof.
  induction blocks as [|b blocks IH]; [constructor|]. csimpl.
  destruct (heading_entry body hs stl b) as [e|] eqn:He.
  - apply heading_entry_some in He as (_ & <- & _). by apply sublist_skip.
  - by apply sublist_cons.
Qed.

Lemma outline_pages_sublist (blocks : list text_block) :
  sublist (map entry_page (outline_of_blocks blocks)) (map tb_page blocks).
Proof.
  destruct (outline_of_blocks_spec blocks) as (_ & Hsub & _).
  apply (sublist_map entry_page) in Hsub. etrans; [exact Hsub|].
  unfold heading_candidates. destruct (body_text_size blocks) as [body|].
  - apply candidate_pages_sublist.
  - apply sublist_nil_l.
Qed.

End OutlinePages.

(** X6. Every entry of a heuristic outline is on a page of the document:
    its page number is between 1 and the page count. *)
Theorem outline_pages_in_range (doc : document) (e : outline_entry) :
  e ∈ extract_outline_heuristically doc ->
  (1 <= entry_page e <= Z.of_nat (page_count doc))%Z.
Proof.
  intros He. destruct (all_text_blocks_pages doc) as [_ Hbounds].
  assert (entry_page e ∈ map tb_page (all_text_blocks doc)) as Hin.
  { apply (elem_of_sublist (map entry_page (extract_outline_heuristically doc))).
    - apply list_elem_of_fmap. by exists e.
    - apply outline_pages_sublist. }
  apply list_elem_of_fmap in Hin as (tb & -> & Htb). by apply Hbounds.
Qed.

Lemma outline_pages_in_range_witness :
  (1 <= 3 <= Z.of_nat (page_count overview_doc))%Z.
Proof.
  apply (outline_pages_in_range overview_doc (Entry H3 (py "1.1 Overview") 3)).
  vm_compute. apply list_elem_of_here.
Defined.

(** X7. A heuristic outline is in document order: the page numbers of its
    entries never decrease. *)
Theorem outline_pages_ascending (doc : document) :
  StronglySorted Z.le (map entry_page (extract_outline_heuristically doc)).
Proof.
  apply (StronglySorted_sublist _ _ (map tb_page (all_text_blocks doc))).
  - apply outline_pages_sublist.
  - apply all_text_blocks_pages.
Qed.

(** X8. A page whose text extraction raises counts as a page without
    blocks: the headings of the other pages are found as before, with the
    same page numbers. *)
Theorem raising_page_is_skipped
    (doc : document) (before after : list page) (e : exn) :
  extract_outline_heuristically (with_page doc before after (Page (inl e)))
  = extract_outline_heuristically (with_page doc before after (Page (inr []))).
Proof.
  unfold extract_outline_heuristically, all_text_blocks, with_page. cbn [pages].
  by rewrite !imap_app, !imap_cons.
Qed.

(** * Texts and levels of the heuristic outline *)

Section OutlineLevels.

Lemma body_text_size_elem (blocks : list text_block) (body : Z) :
  body_text_size blocks = Some body -> body ∈ map tb_font_size blocks.
Proof.
  unfold body_text_size, font_counts.
  destruct (counter (map tb_font_size blocks)) as [|kv c] eqn:Hc; [done|].
  cbn [most_common1 fmap option_fmap option_map]. intros [= <-].
  destruct (max_by_count_spec kv c) as (c1 & c2 & Heq & _).
  apply counter_keys_elem. rewrite Hc, Heq, map_app.
  apply elem_of_app. right. apply list_elem_of_here.
Qed.

Lemma size_to_level_rank (hs : list Z) (s : Z) (l : level) :
  StronglySorted (fun a b => (b < a)%Z) hs ->
  size_to_level_of hs !! s = Some l ->
  exists i, hs !! i = Some s
            /\ l = match i with O => H1 | S O => H2 | _ => H3 end.
Proof.
  intros Hs Hl. destruct (decide (s ∈ hs)) as [Hin|Hnin].
  - apply list_elem_of_lookup_1 in Hin as [i Hi]. exists i. split; [done|].
    rewrite (size_to_level_lookup hs i s Hs Hi) in Hl. by injection Hl.
  - by rewrite size_to_level_absent in Hl.
Qed.

Lemma heading_entry_levels (blocks : list text_block) (body : Z) b e :
  heading_entry body (heading_sizes_of blocks body)
    (size_to_level_of (heading_sizes_of blocks body)) b = Some e ->
  (entry_level e = H1 ->
     (body < tb_font_size b)%Z
     /\ forall b', b' ∈ blocks -> (tb_font_size b' <= tb_font_size b)%Z)
  /\ (entry_level e = H2 ->
        (body < tb_font_size b)%Z
        /\ exists b', b' ∈ blocks /\ (tb_font_size b < tb_font_size b')%Z)
  /\ ((tb_font_size b <= body)%Z ->
        entry_level e = H3 /\ tb_is_bold b = true /\ tb_font_size b = body).
Proof.
  intros (_ & _ & _ & Hlevel)%heading_entry_some.
  pose proof (heading_sizes_strictly_desc blocks body) as Hs.
  set (hs := heading_sizes_of blocks body) in *.
  unfold resolve_level in Hlevel.
  destruct (size_to_level_of hs !! tb_font_size b) as [l|] eqn:Hl.
  - injection Hlevel as <-.
    destruct (size_to_level_rank hs _ _ Hs Hl) as (i & Hi & ->).
    assert (body < tb_font_size b)%Z as Habove.
    { apply list_elem_of_lookup_2 in Hi. by apply heading_sizes_elem in Hi as [? _]. }
    split; [|split].
    + intros Hrank. split; [done|]. intros b' Hb'.
      destruct (decide (tb_font_size b' <= tb_font_size b)%Z) as [|Hgt]; [done|].
      assert (tb_font_size b' ∈ hs) as Hin.
      { apply heading_sizes_elem. split; [lia|]. apply list_elem_of_fmap. by exists b'. }
      apply list_elem_of_lookup_1 in Hin as [j Hj].
      assert (j < i)%nat by (apply (strictly_desc_lookup hs j i _ _ Hs Hj Hi); lia).
      destruct i as [|[|i]]; [lia|done|done].
    + intros Hrank. split; [done|].
      destruct i as [|[|i]]; [done| |done].
      destruct hs as [|s0 hs'] eqn:Hhs; [done|].
      assert (tb_font_size b < s0)%Z as Hlt.
      { apply strictly_desc_head in Hs as [_ Hall]. apply Hall.
        simpl in Hi. by apply list_elem_of_lookup_2 in Hi. }
      assert (s0 ∈ heading_sizes_of blocks body) as Hin.
      { fold hs. rewrite Hhs. apply list_elem_of_here. }
      apply heading_sizes_elem in Hin as [_ (b' & -> & Hb')%list_elem_of_fmap].
      by exists b'.
    + lia.
  - destruct (tb_is_bold b) eqn:Hbold; [|done].
    destruct (Z.leb_spec body (tb_font_size b)); [|done].
    cbn [andb] in Hlevel. injection Hlevel as <-.
    split; [done|]. split; [done|]. intros Hle. repeat split. lia.
Qed.

End OutlineLevels.



(** X10. Levels follow sizes. An H1 entry comes from a block above the
    body size whose font size no block of the document exceeds; an H2
    entry from a block above the body size that some block exceeds; and an
    entry from a block not above the body size is H3, its block bold and
    of body size. *)
Theorem outline_levels_follow_sizes (doc : document) (e : outline_entry) :
  e ∈ extract_outline_heuristically doc ->
  exists body b,
    b ∈ all_text_blocks doc
    /\ body_text_size (all_text_blocks doc) = Some body
    /\ entry_text e = clean_text (tb_text b)
    /\ entry_page e = tb_page b
    /\ (entry_level e = H1 ->
          (body < tb_font_size b)%Z
          /\ forall b', b' ∈ all_text_blocks doc ->
               (tb_font_size b' <= tb_font_size b)%Z)
    /\ (entry_level e = H2 ->
          (body < tb_font_size b)%Z
          /\ exists b', b' ∈ all_text_blocks doc
                        /\ (tb_font_size b < tb_font_size b')%Z)
    /\ ((tb_font_size b <= body)%Z ->
          entry_level e = H3 /\ tb_is_bold b = true /\ tb_font_size b = body).
Proof.
  intros He. apply outline_entry_origin in He as (body & b & Hb & Hbody & Hentry).
  exists body, b. split; [done|]. split; [done|].
  pose proof (heading_entry_some _ _ _ _ _ Hentry) as (Htext & Hpage & _).
  split; [done|]. split; [done|]. by apply heading_entry_levels.
Qed.

Lemma outline_levels_follow_sizes_witness :
  exists body b,
    b ∈ all_text_blocks report_doc
    /\ body_text_size (all_text_blocks report_doc) = Some body
    /\ py "Annual" = clean_text (tb_text b)
    /\ 1%Z = tb_page b
    /\ (H1 = H1 ->
          (body < tb_font_size b)%Z
          /\ forall b', b' ∈ all_text_blocks report_doc ->
               (tb_font_size b' <= tb_font_size b)%Z)
    /\ (H1 = H2 ->
          (body < tb_font_size b)%Z
          /\ exists b', b' ∈ all_text_blocks report_doc
                        /\ (tb_font_size b < tb_font_size b')%Z)
    /\ ((tb_font_size b <= body)%Z ->
          H1 = H3 /\ tb_is_bold b = true /\ tb_font_size b = body).
Proof.
  apply (outline_levels_follow_sizes report_doc (Entry H1 (py "Annual") 1)).
  vm_compute. apply list_elem_of_here.
Defined.

(** X11. A document whose text blocks all have one font size and none of
    which is bold has an empty heuristic outline. *)
Theorem uniform_plain_document_has_no_outline (doc : document) (size : Z) :
  (forall b, b ∈ all_text_blocks doc ->
     tb_font_size b = size /\ tb_is_bold b = false) ->
  extract_outline_heuristically doc = [].
Proof.
  intros Hplain. unfold extract_outline_heuristically.
  destruct (outline_of_blocks (all_text_blocks doc)) as [|e o] eqn:Ho; [done|].
  exfalso.
  assert (e ∈ outline_of_blocks (all_text_blocks doc)) as He
    by (rewrite Ho; apply list_elem_of_here).
  apply outline_entry_origin in He as (body & b & Hb & Hbody & Hentry).
  apply body_text_size_elem in Hbody as (b0 & -> & Hb0)%list_elem_of_fmap.
  destruct (Hplain b Hb) as [Hsize Hbold]. destruct (Hplain b0 Hb0) as [Hsize0 _].
  apply heading_entry_levels in Hentry as (_ & _ & Hlow).
  destruct Hlow as (_ & Hbold' & _); [lia|]. congruence.
Qed.

Lemma uniform_plain_document_has_no_outline_witness :
  extract_outline_heuristically
    (Document None
       [Page (inr [one_span_block "Chapter 1" 12 "Times";
                   one_span_block "It was a bright cold day in April." 12 "Times"])]
       []) = [].
Proof.
  apply (uniform_plain_document_has_no_outline _ 12).
  intros b Hb. vm_compute in Hb.
  apply elem_of_cons in Hb as [->|Hb]; [done|].
  apply list_elem_of_singleton in Hb as ->. done.
Defined.

(** * The table of contents and the title *)

Section TocAndTitle.

Lemma native_entries_nil_iff (doc : document) :
  native_entries doc = [] <->
  forall r, r ∈ get_toc doc -> ~ (1 <= toc_level r <= 3)%Z.
Proof.
  split.
  - intros Hnil r Hin Hr. by apply (native_entries_nonnil doc r).
  - intros Hnone. unfold native_entries.
    induction (get_toc doc) as [|r l IH]; [done|].
    rewrite filter_cons_False by (apply Hnone, list_elem_of_here).
    apply IH. intros r' Hr'. by apply Hnone, list_elem_of_further.
Qed.

Lemma extract_outline_from_toc_cases (doc : document) :
  extract_outline_from_toc doc
  = match native_entries doc with [] => None | o => Some o end.
Proof.
  unfold extract_outline_from_toc. pose proof (omap_toc_entry doc) as Homap.
  destruct (get_toc doc) eqn:Htoc.
  - by rewrite <- Homap.
  - by rewrite Homap.
Qed.

Lemma add_candidate_lookup (cands : gmap Z (list str)) (l : line) (k : Z) :
  add_candidate cands l !! k
  = match sized_line l with
    | Some (size, text) =>
        if decide (size = k) then Some (default [] (cands !! k) ++ [text])
        else cands !! k
    | None => cands !! k
    end.
Proof.
  unfold add_candidate, sized_line. destruct (line_spans l) as [|s0 spans]; [done|].
  cbv zeta. destruct (decide (span_size s0 = k)) as [<-|Hne].
  - by rewrite lookup_insert_eq.
  - by rewrite lookup_insert_ne.
Qed.

Lemma title_candidates_lookup_from (ls : list line) : forall (cands : gmap Z (list str)) (k : Z),
  foldl add_candidate cands ls !! k
  = match lines_of_size k (omap sized_line ls) with
    | [] => cands !! k
    | texts => Some (default [] (cands !! k) ++ texts)
    end.
Proof.
  unfold lines_of_size.
  induction ls as [|l ls IH]; intros cands k; [done|].
  cbn [foldl]. rewrite IH, add_candidate_lookup. csimpl.
  destruct (sized_line l) as [[size text]|]; [|done].
  destruct (decide (size = k)) as [->|Hne].
  - rewrite filter_cons_True by done. cbn [map snd].
    destruct (map snd (filter _ (omap sized_line ls))) as [|t ts]; simpl.
    + done.
    + by rewrite <- app_assoc.
  - by rewrite filter_cons_False.
Qed.

Lemma title_candidates_lookup (blocks : list block) (k : Z) :
  title_candidates blocks !! k
  = match lines_of_size k (sized_lines blocks) with
    | [] => None
    | texts => Some texts
    end.
Proof.
  unfold title_candidates, sized_lines. rewrite title_candidates_lookup_from.
  by rewrite lookup_empty.
Qed.

Lemma lines_of_size_nonnil (k : Z) (lines : list (Z * str)) :
  lines_of_size k lines <> [] <-> k ∈ map fst lines.
Proof.
  unfold lines_of_size. induction lines as [|[k' t] lines IH]; cbn [map fst].
  - split; [done|]. by intros ?%not_elem_of_nil.
  - destruct (decide (k' = k)) as [->|Hne].
    + rewrite filter_cons_True by done. split; [intros _; apply list_elem_of_here|done].
    + rewrite filter_cons_False by done. rewrite IH, elem_of_cons.
      split; [by right|]. intros [Heq|Hin]; [by symmetry in Heq|done].
Qed.

Lemma foldl_max_spec (ks : list Z) : forall k,
  foldl Z.max k ks ∈ k :: ks /\ forall x, x ∈ k :: ks -> (x <= foldl Z.max k ks)%Z.
Proof.
  induction ks as [|k' ks IH]; intros k; cbn [foldl].
  - split; [apply list_elem_of_here|]. intros x ->%list_elem_of_singleton. lia.
  - destruct (IH (Z.max k k')) as [Hin Hmax]. split.
    + apply elem_of_cons in Hin as [Heq|Hin].
      * rewrite Heq. destruct (Z.max_spec k k') as [[_ ->]|[_ ->]].
        -- apply list_elem_of_further, list_elem_of_here.
        -- apply list_elem_of_here.
      * by do 2 apply list_elem_of_further.
    + intros x Hx.
      assert (Z.max k k' <= foldl Z.max (Z.max k k') ks)%Z
        by apply Hmax, list_elem_of_here.
      apply elem_of_cons in Hx as [->|[->|Hx]%elem_of_cons]; [lia|lia|].
      by apply Hmax, list_elem_of_further.
Qed.

Lemma largest_size_spec (cands : gmap Z (list str)) :
  match largest_size cands with
  | None => cands = ∅
  | Some m => is_Some (cands !! m)
              /\ forall k, is_Some (cands !! k) -> (k <= m)%Z
  end.
Proof.
  unfold largest_size.
  assert (forall k, k ∈ map fst (map_to_list cands) <-> is_Some (cands !! k)) as Hkeys.
  { intros k. rewrite list_elem_of_fmap. split.
    - intros ([k' v] & -> & Hin). apply elem_of_map_to_list in Hin. by exists v.
    - intros [v Hv]. exists (k, v). split; [done|]. by apply elem_of_map_to_list. }
  destruct (map fst (map_to_list cands)) as [|k ks] eqn:Hlist.
  - apply fmap_nil_inv in Hlist. by apply map_to_list_empty_iff.
  - destruct (foldl_max_spec ks k) as [Hin Hmax]. split.
    + by apply Hkeys.
    + intros k' Hk'. by apply Hmax, Hkeys.
Qed.

Lemma title_from_blocks_spec (blocks : list block) :
  match sized_lines blocks with
  | [] => title_from_blocks blocks = untitled
  | _ =>
      exists m,
        m ∈ map fst (sized_lines blocks)
        /\ (forall k, k ∈ map fst (sized_lines blocks) -> (k <= m)%Z)
        /\ title_from_blocks blocks
           = normalize_ws (join (py " ") (lines_of_size m (sized_lines blocks)))
  end.
Proof.
  assert (forall k, is_Some (title_candidates blocks !! k)
                    <-> k ∈ map fst (sized_lines blocks)) as Hkeys.
  { intros k. rewrite title_candidates_lookup, <- lines_of_size_nonnil.
    destruct (lines_of_size k (sized_lines blocks)) as [|t ts].
    - split; [by intros [? ?]|done].
    - split; [done|]. intros _. by eexists. }
  unfold title_from_blocks. pose proof (largest_size_spec (title_candidates blocks)) as Hl.
  destruct (largest_size (title_candidates blocks)) as [m|].
  - destruct Hl as [Hm Hmax].
    assert (m ∈ map fst (sized_lines blocks)) as Hin by (by apply Hkeys).
    destruct (sized_lines blocks) as [|kv lines] eqn:Hlines.
    { by apply not_elem_of_nil in Hin. }
    exists m. split; [done|]. split; [intros k Hk; by apply Hmax, Hkeys|].
    rewrite title_candidates_lookup, Hlines.
    apply lines_of_size_nonnil in Hin.
    by destruct (lines_of_size m (kv :: lines)).
  - destruct (sized_lines blocks) as [|[k t] lines] eqn:Hlines; [done|].
    exfalso. assert (is_Some (title_candidates blocks !! k)) as [v Hv].
    { apply Hkeys. apply list_elem_of_here. }
    by rewrite Hl, lookup_empty in Hv.
Qed.

Lemma title_from_blocks_normalized (blocks : list block) :
  normalize_ws (title_from_blocks blocks) = title_from_blocks blocks.
Proof.
  unfold title_from_blocks. destruct (largest_size _); [|done].
  apply normalize_ws_idempotent.
Qed.

End TocAndTitle.

(** X12. The table-of-contents adapter returns nothing exactly when no row
    has a depth from 1 to 3 (an empty table included); what it returns is
    never an empty outline and has at most one entry per row. *)
Theorem toc_outline_absent_iff (doc : document) :
  (extract_outline_from_toc doc = None <->
     forall r, r ∈ get_toc doc -> ~ (1 <= toc_level r <= 3)%Z)
  /\ (forall o, extract_outline_from_toc doc = Some o ->
        o = native_entries doc /\ o <> []
        /\ (length o <= length (get_toc doc))%nat).
Proof.
  rewrite extract_outline_from_toc_cases, <- native_entries_nil_iff. split.
  - by destruct (native_entries doc).
  - intros o Ho.
    assert (o = native_entries doc /\ o <> []) as [-> Hne]
      by (by destruct (native_entries doc); simplify_eq).
    split; [done|]. split; [done|].
    unfold native_entries. rewrite length_map. apply length_filter.
Qed.

(** X13. The title [get_title] returns is whitespace-normalized, and when
    the metadata title is blank it has more than 4 characters (a metadata
    title is returned whatever its length). *)
Theorem title_is_normalized (doc : document) (t : str) :
  get_title doc = inr t ->
  normalize_ws t = t /\ (blank_metadata doc -> (4 < length t)%nat).
Proof.
  assert (forall t, title_heuristic doc = inr t ->
            normalize_ws t = t /\ (4 < length t)%nat) as Hheur.
  { clear t. intros t. unfold title_heuristic, title_text_after_try, title_try.
    assert (forall tt, normalize_ws tt = tt ->
              inr (if (4 <? length tt)%nat then tt else untitled)
              = (inr t : exn + str) ->
              normalize_ws t = t /\ (4 < length t)%nat) as Hfinal.
    { intros tt Hn [= <-]. destruct (4 <? length tt)%nat eqn:Hlen.
      - apply Nat.ltb_lt in Hlen. done.
      - split; [done|]. vm_compute. lia. }
    destruct (pages doc) as [|p ps].
    - cbn [title_caught exn_kind]. by apply Hfinal.
    - destruct (get_text_blocks p) as [e|blocks].
      + destruct (title_caught e); [|done]. by apply Hfinal.
      + apply Hfinal, title_from_blocks_normalized. }
  unfold get_title, blank_metadata.
  destruct (metadata_title doc) as [meta|].
  - destruct (is_nil meta) eqn:Hnil.
    + cbn [negb andb]. intros Ht. by destruct (Hheur t Ht).
    + destruct (is_nil (strip meta)) eqn:Hstrip; cbn [negb andb].
      * intros Ht. by destruct (Hheur t Ht).
      * intros [= <-]. split; [apply normalize_ws_idempotent|].
        intros Hblank. by rewrite Hblank in Hstrip.
  - intros Ht. by destruct (Hheur t Ht).
Qed.

Lemma title_is_normalized_witness :
  normalize_ws (py "Annual Report") = py "Annual Report"
  /\ (blank_metadata report_doc -> (4 < length (py "Annual Report"))%nat).
Proof.
  apply (title_is_normalized report_doc). vm_compute. reflexivity.
Defined.

(** X14. The first-page title candidate: without a line that has spans it
    is "Untitled Document"; otherwise it is the texts of the lines whose
    first span has the largest rounded size on the page, in extraction
    order, joined by spaces and whitespace-normalized. *)
Theorem title_from_largest_lines (blocks : list block) :
  (sized_lines blocks = [] -> title_from_blocks blocks = untitled)
  /\ (forall m,
        m ∈ map fst (sized_lines blocks) ->
        (forall k, k ∈ map fst (sized_lines blocks) -> (k <= m)%Z) ->
        title_from_blocks blocks
        = normalize_ws (join (py " ") (lines_of_size m (sized_lines blocks)))).
Proof.
  pose proof (title_from_blocks_spec blocks) as Hspec.
  destruct (sized_lines blocks) as [|kv lines] eqn:Hlines.
  - split; [done|]. by intros m ?%not_elem_of_nil.
  - split; [done|]. intros m Hm Hmax.
    destruct Hspec as (m' & Hm' & Hmax' & ->).
    assert (m' = m) as -> by (specialize (Hmax m' Hm'); specialize (Hmax' m Hm); lia).
    done.
Qed.

Lemma title_from_largest_lines_witness :
  title_from_blocks
    [one_span_block "Annual" 24 "Helvetica"; one_span_block "10-K" 12 "Helvetica";
     one_span_block "Report" 24 "Helvetica"]
  = py "Annual Report".
Proof.
  destruct (title_from_largest_lines
              [one_span_block "Annual" 24 "Helvetica";
               one_span_block "10-K" 12 "Helvetica";
               one_span_block "Report" 24 "Helvetica"]) as [_ Hlargest].
  rewrite (Hlargest 24%Z).
  - reflexivity.
  - vm_compute. apply list_elem_of_here.
  - intros k Hk. vm_compute in Hk.
    repeat (apply elem_of_cons in Hk as [->|Hk]; [lia|]).
    by apply not_elem_of_nil in Hk.
Defined.

(** * Records and file names *)

Section Records.

Lemma process_single_pdf_path (f : pdf_file) :
  res_path (process_single_pdf f) = pdf_path f.
Proof.
  unfold process_single_pdf, process_single_pdf_with, error_result.
  by repeat case_match.
Qed.

Lemma basename_go_no_slash (acc s : str) :
  "/"%char ∉ s -> basename_go acc s = acc.
Proof.
  revert acc. induction s as [|c s IH]; intros acc Hs; [done|].
  simpl. rewrite bool_decide_eq_false_2.
  - apply IH. intros ?. by apply Hs, list_elem_of_further.
  - intros ->. apply Hs, list_elem_of_here.
Qed.

Lemma basename_go_slash (acc s1 s2 : str) :
  basename_go acc (s1 ++ "/"%char :: s2) = basename_go s2 s2.
Proof.
  revert acc. induction s1 as [|c s1 IH]; intros acc; simpl.
  - done.
  - destruct (bool_decide (c = "/"%char)); apply IH.
Qed.

Lemma basename_after_slash (dir name : str) :
  "/"%char ∉ name -> basename (dir ++ "/"%char :: name) = name.
Proof.
  intros Hname. unfold basename. rewrite basename_go_slash.
  by apply basename_go_no_slash.
Qed.

Lemma rsplit_dot_pdf (n : str) : rsplit_dot (n ++ py ".pdf") = Some (n, py "pdf").
Proof. induction n as [|c n IH]; [done|]. cbn [app rsplit_dot]. by rewrite IH. Qed.

Lemma output_filename_pdf (dir n : str) :
  n <> [] -> "/"%char ∉ n ->
  output_filename (dir ++ "/"%char :: n ++ py ".pdf") = n ++ py ".json".
Proof.
  intros Hne Hslash. unfold output_filename, stem.
  rewrite basename_after_slash.
  - rewrite rsplit_dot_pdf. by destruct n.
  - intros [Hin|Hin]%elem_of_app; [done|].
    vm_compute in Hin. repeat (apply elem_of_cons in Hin as [Hin|Hin]; [done|]).
    by apply not_elem_of_nil in Hin.
Qed.

End Records.

(** X15. The batch returns one record per input file, in the order of the
    files, and each record carries the path of its file, whether the file
    was processed or failed. *)
Theorem batch_one_record_per_file (pdf_files : list pdf_file) :
  length (process_all pdf_files) = length pdf_files
  /\ map res_path (process_all pdf_files) = map pdf_path pdf_files.
Proof.
  unfold process_all. split; [apply length_map|].
  rewrite map_map. apply map_ext. apply process_single_pdf_path.
Qed.


(** X17. When the file opens, has at most 50 pages, its title resolves and
    no row of the table of contents has a depth from 1 to 3, the outline
    of the record is the heuristic outline; if moreover no page yields a
    text block, the record is a success with an empty outline. *)
Theorem heuristic_fallback (f : pdf_file) (doc : document) (t : str) :
  fitz_open f = inr doc ->
  (page_count doc <= 50)%nat ->
  get_title doc = inr t ->
  (forall r, r ∈ get_toc doc -> ~ (1 <= toc_level r <= 3)%Z) ->
  process_single_pdf f
  = Result (pdf_path f) Success (Output t (extract_outline_heuristically doc))
  /\ (all_text_blocks doc = [] ->
      process_single_pdf f = Result (pdf_path f) Success (Output t [])).
Proof.
  intros Hopen Hpages Htitle Htoc.
  assert (process_single_pdf f
          = Result (pdf_path f) Success (Output t (extract_outline_heuristically doc)))
    as Hres.
  { unfold process_single_pdf, process_single_pdf_with. rewrite Hopen.
    replace (50 <? page_count doc)%nat with false
      by (symmetry; apply Nat.ltb_ge; lia).
    rewrite Htitle, extract_outline_from_toc_cases.
    apply native_entries_nil_iff in Htoc. by rewrite Htoc. }
  split; [done|]. intros Hblocks. rewrite Hres.
  unfold extract_outline_heuristically. by rewrite Hblocks.
Qed.

Lemma heuristic_fallback_witness :
  process_single_pdf (PdfFile (py "./input/empty.pdf") (inr (Document None [] [TocRow 4 (py "Deep") 5])))
  = Result (py "./input/empty.pdf") Success (Output (py "Untitled Document") []).
Proof.
  destruct (heuristic_fallback
              (PdfFile (py "./input/empty.pdf") (inr (Document None [] [TocRow 4 (py "Deep") 5])))
              (Document None [] [TocRow 4 (py "Deep") 5]) (py "Untitled Document"))
    as [_ Hempty].
  - reflexivity.
  - unfold page_count. simpl. lia.
  - reflexivity.
  - intros r Hr. apply list_elem_of_singleton in Hr as ->. simpl. lia.
  - by apply Hempty.
Defined.

(** X18. [basename] returns what follows the last slash: the result never
    contains a slash, a path without a slash is returned as it is, and
    [dir/name] gives [name] when [name] has no slash. *)
Theorem basename_is_last_component :
  (forall path, "/"%char ∉ basename path)
  /\ (forall path, "/"%char ∉ path -> basename path = path)
  /\ (forall dir name, "/"%char ∉ name -> basename (dir ++ "/"%char :: name) = name).
Proof.
  assert (forall path, "/"%char ∉ path -> basename path = path) as Hplain.
  { intros path Hpath. unfold basename. by apply basename_go_no_slash. }
  split; [|split; [exact Hplain|apply basename_after_slash]].
  intros path. destruct (decide ("/"%char ∈ path)) as [Hin|Hnin].
  - apply list_elem_of_split_r in Hin as (dir & name & -> & Hname).
    by rewrite basename_after_slash.
  - by rewrite Hplain.
Qed.

Lemma basename_is_last_component_witness :
  basename (py "./input/a/report.pdf") = py "report.pdf".
Proof.
  destruct basename_is_last_component as (_ & _ & Hdir).
  apply (Hdir (py "./input/a") (py "report.pdf")).
  intros Hin. vm_compute in Hin.
  repeat (apply elem_of_cons in Hin as [Hin|Hin]; [done|]).
  by apply not_elem_of_nil in Hin.
Defined.

(** X19. The result of a file [dir/n.pdf] with a non-empty name [n] is
    written to [n.json]: files of the input directory with different names
    get different output files, and the directory of the input does not
    show in the output name. *)
Theorem output_name_of_pdf (dir dir' n n' : str) :
  n <> [] -> "/"%char ∉ n ->
  n' <> [] -> "/"%char ∉ n' ->
  output_filename (dir ++ "/"%char :: n ++ py ".pdf") = n ++ py ".json"
  /\ (output_filename (dir ++ "/"%char :: n ++ py ".pdf")
      = output_filename (dir' ++ "/"%char :: n' ++ py ".pdf") -> n = n').
Proof.
  intros Hn Hslash Hn' Hslash'. rewrite !output_filename_pdf by done.
  split; [done|]. by intros ?%app_inv_tail.
Qed.

Lemma output_name_of_pdf_witness :
  output_filename (py "input/annual.report.pdf") = py "annual.report.json".
Proof.
  assert ("/"%char ∉ py "annual.report") as Hslash.
  { intros Hin. vm_compute in Hin.
    repeat (apply elem_of_cons in Hin as [Hin|Hin]; [done|]).
    by apply not_elem_of_nil in Hin. }
  destruct (output_name_of_pdf (py "input") (py "input")
              (py "annual.report") (py "annual.report")) as [Hname _]; try done.
Defined.

(** * Text blocks, numbered headings and page numbers *)

Section BlocksAndPatterns.
Implicit Types (s t : str) (c : ascii).

Lemma sum_bounds (l : list Z) (lo hi : Z) :
  (forall x, x ∈ l -> (lo <= x <= hi)%Z) ->
  (Z.of_nat (length l) * lo <= foldr Z.add 0%Z l <= Z.of_nat (length l) * hi)%Z.
Proof.
  induction l as [|x l IH]; intros Hl; [simpl; lia|].
  assert (lo <= x <= hi)%Z by apply Hl, list_elem_of_here.
  assert (forall y, y ∈ l -> (lo <= y <= hi)%Z) as Hl'
    by (intros y Hy; by apply Hl, list_elem_of_further).
  specialize (IH Hl'). cbn [foldr length]. lia.
Qed.

Lemma round_div_bounds (total n lo hi : Z) :
  (0 < n)%Z -> (n * lo <= total <= n * hi)%Z ->
  (lo <= round_div total n <= hi)%Z.
Proof.
  intros Hn Htotal. unfold round_div.
  pose proof (Z.div_mod total n ltac:(lia)) as Hdm.
  pose proof (Z.mod_pos_bound total n Hn) as Hmod.
  assert (lo <= total / n <= hi)%Z by nia.
  assert (0 < total mod n -> total / n + 1 <= hi)%Z by nia.
  destruct (Z.ltb_spec (2 * (total mod n)) n); [done|].
  destruct (Z.ltb_spec n (2 * (total mod n))); [lia|].
  destruct (Z.even (total / n)); lia.
Qed.

Lemma join_nonnil (sep p : str) (ps : list str) : p <> [] -> join sep (p :: ps) <> [].
Proof. intros Hp. rewrite join_cons. by destruct p. Qed.

Lemma strict_match_rejects t font_size is_bold body_size heading_sizes :
  any_match strict_non_heading_patterns (clean_text t) = true ->
  is_likely_heading t font_size is_bold body_size heading_sizes = false.
Proof.
  intros Hstrict. apply not_true_is_false.
  intros (_ & _ & _ & Hno)%is_likely_heading_gates. congruence.
Qed.

Lemma matches_plus_set (neg : bool) (items : list citem) s rest :
  s <> [] ->
  Forall (fun c => set_matches true neg items c = true) s ->
  matches true (Plus (Set_ neg items)) s rest.
Proof.
  intros Hne Hs. destruct s as [|c s]; [done|]. apply Forall_cons in Hs as [Hc Hs].
  unfold Plus. apply (M_cat true _ _ [c] s rest); [by constructor|].
  by apply matches_star_set.
Qed.

Lemma digit_class c : isdigit c = true -> set_matches true false [CDigit] c = true.
Proof. destruct c as [[] [] [] [] [] [] [] []]; vm_compute; done. Qed.

Lemma digit_not_dollar c :
  isdigit c = true -> set_matches true false [CChar "$"%char] c = false.
Proof. destruct c as [[] [] [] [] [] [] [] []]; vm_compute; done. Qed.

Lemma digit_not_p c :
  isdigit c = true -> set_matches true false [CChar "P"%char] c = false.
Proof. destruct c as [[] [] [] [] [] [] [] []]; vm_compute; done. Qed.

Lemma digit_not_space c : isdigit c = true -> isspace c = false.
Proof. destruct c as [[] [] [] [] [] [] [] []]; vm_compute; done. Qed.

Lemma alpha_letter_class c :
  isalpha c = true ->
  set_matches true false [CRange "A" "Z"; CRange "a" "z"]%char c = true.
Proof. destruct c as [[] [] [] [] [] [] [] []]; vm_compute; done. Qed.

(** A pattern that starts with a character class rejects a text whose
    first character is outside the class. *)
Lemma first_class_rejects (neg : bool) (items : list citem) (r : regex) c s :
  set_matches true neg items c = false ->
  re_match true (Cat (Set_ neg items) r) (c :: s) = false.
Proof.
  intros Hc. apply not_true_is_false. intros (p & q & Heq & H)%re_match_spec.
  apply matches_cat_inv in H as (s1 & s2 & -> & H1 & _).
  apply matches_set_inv in H1 as (c' & -> & Hc').
  injection Heq as <- _. congruence.
Qed.

Lemma first_class_rejects_nested (neg : bool) (items : list citem) (r1 r2 : regex) c s :
  set_matches true neg items c = false ->
  re_match true (Cat (Cat (Set_ neg items) r1) r2) (c :: s) = false.
Proof.
  intros Hc. apply not_true_is_false. intros (p & q & Heq & H)%re_match_spec.
  apply matches_cat_inv in H as (s1 & s2 & -> & H1 & _).
  apply matches_cat_inv in H1 as (s3 & s4 & -> & H1 & _).
  apply matches_set_inv in H1 as (c' & -> & Hc').
  injection Heq as <- _. congruence.
Qed.

(** [[^...]*$] rejects a text that contains a character of the class
    other than a newline. *)
Lemma negated_star_rejects_elem (items : list citem) c s :
  c ∈ s -> set_matches true true items c = false -> c <> "010"%char ->
  re_match true (Seq [Star (Set_ true items); Eos]) s = false.
Proof.
  intros Hin Hc Hnl. apply not_true_is_false. intros (p & q & -> & H)%re_match_spec.
  unfold Seq in H. cbn [foldr] in H.
  apply matches_cat_inv in H as (s1 & s2 & -> & H1 & H2).
  apply matches_star_set_inv in H1.
  apply matches_cat_inv in H2 as (s3 & s4 & -> & [-> Hend]%matches_eos_inv & ->%matches_eps_inv).
  cbn [app] in *. rewrite app_nil_r in Hin.
  apply elem_of_app in Hin as [Hin|Hin].
  - rewrite Forall_forall in H1. specialize (H1 c Hin). congruence.
  - destruct q as [|x [|y q]]; [by apply not_elem_of_nil in Hin| |done].
    apply list_elem_of_singleton in Hin as ->. simpl in Hend.
    by apply bool_decide_eq_true in Hend.
Qed.

Lemma numbered_text_matches (ds : str) (groups : list str) (l : ascii) (rest : str) :
  ds <> [] -> Forall (fun c => isdigit c = true) ds ->
  Forall (fun g => g <> [] /\ Forall (fun c => isdigit c = true) g) groups ->
  isalpha l = true ->
  re_match true
    (Seq [Plus Digit; Star (Cat (Chr ".") (Plus Digit)); Plus Space;
          Set_ false [CRange "A" "Z"; CRange "a" "z"]%char])
    (ds ++ concat (map (fun g => "."%char :: g) groups) ++ " "%char :: l :: rest) = true.
Proof.
  intros Hne Hds Hgroups Hl. apply re_match_spec.
  exists (ds ++ concat (map (fun g => "."%char :: g) groups) ++ [" "%char; l]), rest.
  split; [by rewrite <- !app_assoc|].
  unfold Seq. cbn [foldr].
  apply M_cat.
  { apply matches_plus_set; [done|]. eapply Forall_impl; [exact Hds|]. apply digit_class. }
  apply M_cat.
  { induction Hgroups as [|g groups [Hg Hgd] _ IH]; [constructor|].
    cbn [map concat]. apply M_star_cons; [|done].
    apply (M_cat true _ _ ["."%char] g); [by constructor|].
    apply matches_plus_set; [done|]. eapply Forall_impl; [exact Hgd|]. apply digit_class. }
  apply (M_cat true _ _ [" "%char] [l]).
  { apply matches_plus_set; [done|]. by repeat constructor. }
  apply (M_cat true _ _ [l] []); [|constructor].
  constructor. by apply alpha_letter_class.
Qed.

Lemma page_number_matches (ds : str) :
  ds <> [] -> Forall (fun c => isdigit c = true) ds ->
  re_match true (Seq [Lit "Page"; Plus Space; Plus Digit; Star Space; Eos])
    (py "Page " ++ ds) = true.
Proof.
  intros Hne Hds. apply re_match_spec. exists (py "Page " ++ ds), [].
  split; [by rewrite app_nil_r|].
  unfold Seq. cbn [foldr].
  apply (M_cat true _ _ (py "Page") (" "%char :: ds) []).
  { unfold Lit. cbn [foldr py list_ascii_of_string].
    repeat (apply (M_cat true _ _ [_] _); [by constructor|]). constructor. }
  apply (M_cat true _ _ [" "%char] ds []).
  { apply matches_plus_set; [done|]. by repeat constructor. }
  rewrite <- (app_nil_r ds) at 1. apply M_cat.
  { apply matches_plus_set; [done|]. eapply Forall_impl; [exact Hds|]. apply digit_class. }
  by apply nullable_matches.
Qed.

End BlocksAndPatterns.

(** X20. A text block of pass 1 has a non-empty text, the 1-based number
    of its page, and a font size within the range of the rounded sizes of
    its spans with text; so a block whose spans all have one size has that
    size. *)
Theorem text_block_within_spans (page_num : nat) (b : block) (tb : text_block) :
  text_block_of page_num b = Some tb ->
  tb_text tb <> []
  /\ tb_page tb = (Z.of_nat page_num + 1)%Z
  /\ forall lo hi,
       (forall s, s ∈ kept_spans b -> (lo <= span_size s <= hi)%Z) ->
       (lo <= tb_font_size tb <= hi)%Z.
Proof.
  intros Hsome. split; [|split; [by apply (text_block_of_page page_num b)|]].
  - unfold text_block_of in Hsome. destruct (block_lines b); [done|]. cbv zeta in Hsome.
    destruct (kept_spans b) as [|s0 spans] eqn:Hkept; [done|].
    cbn [map] in Hsome. injection Hsome as <-. cbn [tb_text].
    assert (s0 ∈ kept_spans b) as Hin by (rewrite Hkept; apply list_elem_of_here).
    unfold kept_spans in Hin. apply list_elem_of_filter in Hin as [Hs0 _].
    exact (join_nonnil (py " ") (strip (span_text s0))
             (map (fun s => strip (span_text s)) spans) Hs0).
  - intros lo hi Hrange.
    unfold text_block_of in Hsome. destruct (block_lines b); [done|]. cbv zeta in Hsome.
    destruct (kept_spans b) as [|s0 spans] eqn:Hkept; [done|].
    cbn [map] in Hsome. injection Hsome as <-. cbn [tb_font_size].
    apply round_div_bounds; [cbn [length]; lia|].
    apply (sum_bounds (span_size s0 :: map span_size spans)).
    intros x Hx. change (x ∈ map span_size (s0 :: spans)) in Hx.
    apply list_elem_of_fmap in Hx as (s & -> & Hs). by apply Hrange.
Qed.

Lemma text_block_within_spans_witness :
  tb_text (TextBlock (py "Annual") 24 false 1) <> []
  /\ tb_page (TextBlock (py "Annual") 24 false 1) = (Z.of_nat 0 + 1)%Z
  /\ forall lo hi,
       (forall s, s ∈ kept_spans (one_span_block "Annual" 24 "Helvetica") ->
                  (lo <= span_size s <= hi)%Z) ->
       (lo <= tb_font_size (TextBlock (py "Annual") 24 false 1) <= hi)%Z.
Proof.
  apply (text_block_within_spans 0 (one_span_block "Annual" 24 "Helvetica")).
  reflexivity.
Defined.

(** X21. A text whose cleaned form starts with a number in the form
    digits(.digits)*, one space and a letter, with at most 25 words and at
    most 200 characters, is classified as a heading whatever the font
    size, the boldness and the body size are. *)
Theorem numbered_text_is_heading
    (text : str) (font_size : Z) (is_bold : bool) (body_size : Z)
    (heading_sizes : list Z)
    (ds : str) (groups : list str) (l : ascii) (rest : str) :
  ds <> [] -> Forall (fun c => isdigit c = true) ds ->
  Forall (fun g => g <> [] /\ Forall (fun c => isdigit c = true) g) groups ->
  isalpha l = true ->
  clean_text text
  = ds ++ concat (map (fun g => "."%char :: g) groups) ++ " "%char :: l :: rest ->
  (length (split (clean_text text)) <= 25)%nat ->
  (length (clean_text text) <= 200)%nat ->
  is_likely_heading text font_size is_bold body_size heading_sizes = true.
Proof.
  intros Hne Hds Hgroups Hl Hclean Hwords Hlen.
  destruct ds as [|d ds']; [done|]. pose proof Hds as Hds0.
  apply Forall_cons in Hds0 as [Hd _].
  assert (l ∈ clean_text text) as Hlin.
  { rewrite Hclean. apply elem_of_app. right. apply elem_of_app. right.
    apply list_elem_of_further, list_elem_of_here. }
  assert (text <> []) as Htext.
  { intros ->. by rewrite clean_text_nil in Hclean. }
  assert (2 <= length (strip text))%nat as Hstrip.
  { etrans; [|apply nonspace_length]. rewrite nonspace_strip.
    destruct (clean_text_cases text) as [Hnil|Hnorm]; [by rewrite Hnil in Hclean|].
    rewrite <- nonspace_normalize_ws, <- Hnorm, Hclean.
    cbn [app]. rewrite nonspace_cons_other by (by apply digit_not_space).
    rewrite !nonspace_app, (nonspace_cons_space " "%char) by done.
    rewrite nonspace_cons_other by (by apply alpha_not_space).
    rewrite !length_cons, !length_app, length_cons. lia. }
  unfold is_likely_heading.
  apply is_nil_false in Htext. rewrite Htext.
  replace (length (strip text) <? 2)%nat with false
    by (symmetry; apply Nat.ltb_ge; lia).
  cbn [orb]. cbv zeta.
  replace (is_nil (clean_text text)) with false by (by rewrite Hclean).
  replace (25 <? length (split (clean_text text)))%nat with false
    by (symmetry; apply Nat.ltb_ge; lia).
  replace (200 <? length (clean_text text))%nat with false
    by (symmetry; apply Nat.ltb_ge; lia).
  assert (any_match strict_non_heading_patterns (clean_text text) = false) as ->.
  { unfold any_match, strict_non_heading_patterns. cbn [existsb].
    rewrite (negated_star_rejects_elem _ l (clean_text text) Hlin
               (alpha_is_letter_class l Hl) (alpha_not_newline l Hl)).
    rewrite (negated_star_rejects_elem _ l (clean_text text) Hlin
               (alpha_is_word_class l Hl) (alpha_not_newline l Hl)).
    rewrite Hclean. cbn [app].
    unfold Seq, Lit. cbn [foldr py list_ascii_of_string].
    rewrite (first_class_rejects false [CChar "$"%char]) by (by apply digit_not_dollar).
    rewrite (first_class_rejects_nested false [CChar "P"%char]) by (by apply digit_not_p).
    done. }
  assert (any_match strong_heading_patterns (clean_text text) = true) as ->; [|done].
  unfold any_match, strong_heading_patterns. cbn [existsb].
  rewrite Hclean, (numbered_text_matches (d :: ds') groups l rest) by done.
  by rewrite orb_true_l, orb_true_r.
Qed.

Lemma numbered_text_is_heading_witness :
  is_likely_heading (py "2.10.3 methods (revised)") 9 false 10 [] = true.
Proof.
  apply (numbered_text_is_heading _ _ _ _ _ (py "2") [py "10"; py "3"] "m"%char
           (py "ethods (revised)")).
  - done.
  - by repeat constructor.
  - by repeat constructor.
  - done.
  - reflexivity.
  - vm_compute. lia.
  - vm_compute. lia.
Defined.

(** X22. A page number, "Page" followed by a space and digits, is never
    classified as a heading, whatever the font size and boldness are. *)
Theorem page_number_never_heading
    (text : str) (font_size : Z) (is_bold : bool) (body_size : Z)
    (heading_sizes : list Z) (ds : str) :
  ds <> [] -> Forall (fun c => isdigit c = true) ds ->
  clean_text text = py "Page " ++ ds ->
  is_likely_heading text font_size is_bold body_size heading_sizes = false.
Proof.
  intros Hne Hds Hclean. apply strict_match_rejects. rewrite Hclean.
  unfold any_match, strict_non_heading_patterns. cbn [existsb].
  rewrite (page_number_matches ds Hne Hds).
  by rewrite orb_true_l, orb_true_r.
Qed.

Lemma page_number_never_heading_witness :
  is_likely_heading (py "  Page   12 ") 30 true 10 [] = false.
Proof.
  apply (page_number_never_heading _ _ _ _ _ (py "12")).
  - done.
  - by repeat constructor.
  - reflexivity.
Defined.
